(** * OCR menu detector ([api/ocr.py]): a shallow embedding and its properties

  The handler of [/api/ocr] runs Tesseract under three page-segmentation
  profiles, keeps the text of the most confident one, cuts that text into
  menu items with a line classifier and, on request, translates the name
  and the description of every item.

  Conventions of the embedding:
  - a Python [str] is the list of its code points ([list N]); [len] is
    [length];
  - a Python [dict] with string keys is a [gmap string _];
  - a call that may raise returns an [option], [None] standing for the
    exception that the surrounding [try] catches;
  - a Python number is the rational it denotes: an [int] is any integer, a
    [float] a double, and the division of two [int]s rounds to the nearest
    double;
  - the translation client is the one piece of shared state: the code that
    reaches it is written in a state monad over the [world]. *)

From Stdlib Require Import ZArith NArith QArith.
From stdpp Require Import gmap strings list fin_maps.

Local Open Scope N_scope.

(** ** Python strings *)

Module PyStr.

(** An ASCII literal of the source, as code points. *)
Definition py (s : string) : list N :=
  List.map Ascii.N_of_ascii (String.list_ascii_of_string s).

(** [Py_UNICODE_ISSPACE]: the characters [str.strip()] removes and the
    class [\s] of [re] on [str] patterns. *)
Definition isspace (c : N) : bool :=
  (9 <=? c) && (c <=? 13) || (28 <=? c) && (c <=? 31) || (c =? 32)
  || (c =? 0x85) || (c =? 0xA0) || (c =? 0x1680)
  || (0x2000 <=? c) && (c <=? 0x200A)
  || (c =? 0x2028) || (c =? 0x2029) || (c =? 0x202F) || (c =? 0x205F)
  || (c =? 0x3000).

Fixpoint lstrip (s : list N) : list N :=
  match s with
  | c :: s' => if isspace c then lstrip s' else s
  | [] => []
  end.

Definition rstrip (s : list N) : list N := rev (lstrip (rev s)).

(** [s.strip()] *)
Definition strip (s : list N) : list N := rstrip (lstrip s).

(** [s.split(sep)] for a separator of one character. *)
Fixpoint split (sep : N) (s : list N) : list (list N) :=
  match s with
  | [] => [[]]
  | c :: s' =>
      if c =? sep then [] :: split sep s'
      else match split sep s' with
           | l :: ls => (c :: l) :: ls
           | [] => [[c]]
           end
  end.

(** [sep.join(ls)] for a separator of one character. *)
Fixpoint join (sep : N) (ls : list (list N)) : list N :=
  match ls with
  | [] => []
  | [l] => l
  | l :: ls' => l ++ sep :: join sep ls'
  end.

(** Truth value of a [str]: non-empty. *)
Definition nonempty (s : list N) : bool :=
  match s with [] => false | _ :: _ => true end.

Definition newline : N := 10.

End PyStr.

(** ** Python numbers: the scores of the engine and the division of [int]s *)

Module PyNum.

(** An entry of the column [data['conf']], as the code looks at it: through
    [int]. [Int z] is an [int], or a string that [int] reads as [z];
    [Float q] is a finite [float], given by its exact value; [Unreadable]
    is anything on which [int] raises (a string that is no integer
    literal, a [nan], an infinity). *)
Inductive reported : Type :=
| Int (z : Z)
| Float (q : Q)
| Unreadable.

(** [int(conf)]: a [float] is truncated towards zero. *)
Definition py_int (c : reported) : option Z :=
  match c with
  | Int z => Some z
  | Float q => Some (Z.quot (Qnum q) (Z.pos (Qden q)))
  | Unreadable => None
  end.

(** The integer nearest to [num / den], the even one of two that are
    equally near. *)
Definition round_half_even (num den : Z) : Z :=
  let m := (num / den)%Z in
  let r := (num mod den)%Z in
  if (2 * r <? den)%Z then m
  else if (den <? 2 * r)%Z then (m + 1)%Z
  else if Z.even m then m else (m + 1)%Z.

(** The binary exponent of [a / b]: the [e] with [2^e ≤ a / b < 2^(e+1)]. *)
Definition exponent (a b : Z) : Z :=
  if (b <=? a)%Z then Z.log2 (a / b) else (- Z.log2_up ((b + a - 1) / a))%Z.

(** [a / b] for two [int]s above 0: the double nearest to the exact
    quotient (a mantissa of 53 bits, an exponent no less than -1074, ties
    to even), as an exact rational; [None] is the [OverflowError] of a
    quotient too large for a double. *)
Definition pos_div (a b : Z) : option Q :=
  let s := Z.max (exponent a b - 52) (-1074) in
  let t := Z.max 0 (- s) in
  let u := Z.max 0 s in
  let m := round_half_even (a * 2 ^ t) (b * 2 ^ u) in
  if (2 ^ 1024 * 2 ^ t <=? m * 2 ^ u)%Z then None
  else Some (Qmake (m * 2 ^ u) (Z.to_pos (2 ^ t))).

(** [a / b] on [int]s; [None] is [ZeroDivisionError] or [OverflowError]. *)
Definition true_div (a b : Z) : option Q :=
  if (b =? 0)%Z then None
  else if (a =? 0)%Z then Some 0%Q
  else
    match pos_div (Z.abs a) (Z.abs b) with
    | Some v => Some (if Z.eqb (Z.sgn a) (Z.sgn b) then v else Qopp v)
    | None => None
    end.

End PyNum.

Import PyNum.

(** ** The fragment of [re] the price pattern uses

  A backtracking matcher in continuation-passing style, with the priorities
  of [sre]: the alternatives of a branch are tried left to right, a greedy
  repeat tries one more iteration before it gives up the ones it has. The
  continuation receives the rest of the subject after the part matched so
  far. *)

Module Re.

Inductive regex : Type :=
| Literal (c : N)
| In (cls : N → bool)
| Cat (r1 r2 : regex)
| Branch (r1 r2 : regex)
| MaxRepeat (lo : nat) (hi : option nat) (r : regex).

Definition more_allowed (hi : option nat) : bool :=
  match hi with Some O => false | _ => true end.

Definition dec_hi (hi : option nat) : option nat :=
  match hi with Some n => Some (Nat.pred n) | None => None end.

Definition orelse {A} (x y : option A) : option A :=
  match x with Some _ => x | None => y end.

(** Greedy repeat of the matcher [m] between [lo] and [hi] times. Every
    iteration has to consume a character, so the length of the subject
    bounds the number of iterations ([fuel]). *)
Fixpoint max_repeat (m : list N → (list N → option (list N)) → option (list N))
    (fuel lo : nat) (hi : option nat) (s : list N)
    (k : list N → option (list N)) : option (list N) :=
  let stop := if Nat.eqb lo 0 then k s else None in
  match fuel with
  | O => stop
  | S fuel' =>
      if more_allowed hi then
        orelse
          (m s (λ s', if Nat.ltb (length s') (length s)
                      then max_repeat m fuel' (Nat.pred lo) (dec_hi hi) s' k
                      else None))
          stop
      else stop
  end.

Fixpoint match_at (r : regex) (s : list N)
    (k : list N → option (list N)) : option (list N) :=
  match r with
  | Literal c =>
      match s with
      | x :: s' => if x =? c then k s' else None
      | [] => None
      end
  | In cls =>
      match s with
      | x :: s' => if cls x then k s' else None
      | [] => None
      end
  | Cat r1 r2 => match_at r1 s (λ s1, match_at r2 s1 k)
  | Branch r1 r2 => orelse (match_at r1 s k) (match_at r2 s k)
  | MaxRepeat lo hi r' => max_repeat (match_at r') (length s) lo hi s k
  end.

(** [re.search(r, s)]: the first position, from the left, at which the
    pattern matches; the result is [m.group()], the matched part. *)
Fixpoint search (r : regex) (s : list N) : option (list N) :=
  match match_at r s Some with
  | Some rest => Some (take (length s - length rest)%nat s)
  | None =>
      match s with
      | [] => None
      | _ :: s' => search r s'
      end
  end.

(** A run of three literal characters, as in [USD]. *)
Definition literal3 (w : string) : regex :=
  match PyStr.py w with
  | [a; b; c] => Cat (Literal a) (Cat (Literal b) (Literal c))
  | _ => In (λ _, false)
  end.

(** *** The language of a pattern

    What a pattern matches, said without the matcher: [matches r p] holds
    when [p], as a whole, is in the language of [r]. *)

Definition within (hi : option nat) (n : nat) : Prop :=
  match hi with Some h => (n ≤ h)%nat | None => True end.

Fixpoint matches (r : regex) (p : list N) : Prop :=
  match r with
  | Literal c => p = [c]
  | In cls => ∃ x, p = [x] ∧ cls x = true
  | Cat r1 r2 => ∃ p1 p2, p = p1 ++ p2 ∧ matches r1 p1 ∧ matches r2 p2
  | Branch r1 r2 => matches r1 p ∨ matches r2 p
  | MaxRepeat lo hi r' =>
      ∃ ps, p = concat ps ∧ Forall (matches r') ps
            ∧ (lo ≤ length ps)%nat ∧ within hi (length ps)
  end.

(** The least number of characters a match takes ([getwidth] of the
    pattern compiler, lower bound). *)
Fixpoint min_width (r : regex) : nat :=
  match r with
  | Literal _ | In _ => 1
  | Cat r1 r2 => min_width r1 + min_width r2
  | Branch r1 r2 => Nat.min (min_width r1) (min_width r2)
  | MaxRepeat lo _ r' => lo * min_width r'
  end%nat.

(** The body of every repeat takes a character at least. *)
Fixpoint productive (r : regex) : bool :=
  match r with
  | Literal _ | In _ => true
  | Cat r1 r2 | Branch r1 r2 => productive r1 && productive r2
  | MaxRepeat _ _ r' => (0 <? min_width r')%nat && productive r'
  end.

End Re.

Import PyStr.

(** ** A small world to run the handler in

    Four photographs, an engine that reads them and a translation service
    that cannot be reached for German. *)

Module Sample.

(** A table that knows the Arabic-Indic digits only. *)
Definition decimal_db (c : N) : bool := (0x660 <=? c) && (c <=? 0x669).

Inductive photo : Type := menu | faint | smudged | blank.

Definition image_to_data (img : photo) (config : string) : option (list reported) :=
  match img with
  | menu =>
      if String.eqb config "--oem 3 --psm 6" then Some [Int (-1); Int 40]
      else if String.eqb config "--oem 3 --psm 4"
      then Some [Int (-1); Int 80; Int 0; Int 90]
      else Some [Float (607 # 10); Int (-1)]
  | faint => Some [Int (-1); Int 0]
  | smudged =>
      if String.eqb config "--oem 3 --psm 6" then Some [Int (-1); Int 0] else None
  | blank => None
  end.

Definition pasta_page : list N := py "Pasta" ++ newline :: py "$12.50" ++ [newline].

Definition image_to_string (img : photo) (config : string) : option (list N) :=
  match img with
  | menu =>
      if String.eqb config "--oem 3 --psm 6" then Some (py "Pasta 12")
      else if String.eqb config "--oem 3 --psm 4" then Some pasta_page
      else Some (py "Pas ta")
  | faint => Some (py "Soup")
  | smudged => if String.eqb config "--oem 3 --psm 6" then Some (py "Soup") else None
  | blank => None
  end.

(** The state of the service is the number of requests it has answered. *)
Definition backend_detect (text : list N) (n : nat) : option (list N) * nat :=
  (Some (py "it"), S n).

Definition backend_translate (text dest : list N) (n : nat) : option (list N) * nat :=
  if bool_decide (dest = py "de") then (None, n)
  else (Some (dest ++ py ":" ++ text), S n).

(** A table that leaves the characters beyond ASCII as they are. *)
Definition unicode_lower (s : list N) : list N := s.

(** The page of the menu photograph, as a scanner on another system would
    give it: indented, with carriage returns and a blank line. *)
Definition pasta_page_crlf : list N :=
  py "  Pasta " ++ [13; newline; 13; newline] ++ py "$12.50" ++ [13; newline].

End Sample.

(** ** The menu segmenter, the selector, the translator and the handler *)

Section OCR.

(** The Unicode database of the interpreter decides which characters
    beyond ASCII are decimal digits (category Nd); it is not part of the
    repository, so the embedding takes that table as it comes. *)
Variable decimal_db : N → bool.

(** [Py_UNICODE_ISDECIMAL], the class [\d] of [re] on [str] patterns. *)
Definition isdecimal (c : N) : bool :=
  if c <? 128 then (48 <=? c) && (c <=? 57) else decimal_db c.

(** *** [price_pattern]

    [[\$€£¥₹]\s*\d+(?:\.\d{2})?|\d+(?:\.\d{2})?\s*[\$€£¥₹]|\d+(?:\.\d{2})?\s*(?:USD|EUR|GBP|JPY|INR)] *)

(** [[\$€£¥₹]]: U+0024, U+20AC, U+00A3, U+00A5, U+20B9. *)
Definition currency_symbol (c : N) : bool :=
  (c =? 0x24) || (c =? 0x20AC) || (c =? 0xA3) || (c =? 0xA5) || (c =? 0x20B9).

(** [\d+(?:\.\d{2})?] *)
Definition amount : Re.regex :=
  Re.Cat (Re.MaxRepeat 1 None (Re.In isdecimal))
    (Re.MaxRepeat 0 (Some 1%nat)
       (Re.Cat (Re.Literal 0x2E) (Re.MaxRepeat 2 (Some 2%nat) (Re.In isdecimal)))).

(** [\s*] *)
Definition spaces : Re.regex := Re.MaxRepeat 0 None (Re.In isspace).

(** [(?:USD|EUR|GBP|JPY|INR)] *)
Definition currency_code : Re.regex :=
  Re.Branch (Re.literal3 "USD")
    (Re.Branch (Re.literal3 "EUR")
       (Re.Branch (Re.literal3 "GBP")
          (Re.Branch (Re.literal3 "JPY") (Re.literal3 "INR")))).

Definition price_pattern : Re.regex :=
  Re.Branch (Re.Cat (Re.In currency_symbol) (Re.Cat spaces amount))
    (Re.Branch (Re.Cat amount (Re.Cat spaces (Re.In currency_symbol)))
       (Re.Cat amount (Re.Cat spaces currency_code))).

(** [bool(re.search(price_pattern, line))] *)
Definition has_price (line : list N) : bool :=
  match Re.search price_pattern line with Some _ => true | None => false end.

(** [re.search(price_pattern, line).group()], on a line that has a price. *)
Definition price_group (line : list N) : list N :=
  default [] (Re.search price_pattern line).

(** *** [extract_menu_items] *)

(** Truth value of a [dict]: non-empty. *)
Definition truthy (d : gmap string (list N)) : bool := bool_decide (d ≠ ∅).

(** The list comprehension that opens the function:
    [[line.strip() for line in text.split('\n') if line.strip()]]. *)
Definition clean_lines (text : list N) : list (list N) :=
  List.map strip (List.filter (λ line, nonempty (strip line)) (split newline text)).

(** One turn of the [for line in lines] loop on the pair
    [(menu_items, current_item)]. *)
Definition step (st : list (gmap string (list N)) * gmap string (list N))
    (line : list N) : list (gmap string (list N)) * gmap string (list N) :=
  let '(menu_items, current_item) := st in
  if (length line <? 3)%nat then st
  else
    let is_description := (20 <? length line)%nat && negb (has_price line) in
    if has_price line && truthy current_item then
      let current_item := <["price" := price_group line]> current_item in
      let current_item :=
        <["full_text" := default [] (current_item !! "name") ++ py " " ++ line]>
          current_item in
      (menu_items ++ [current_item], ∅)
    else if is_description && negb (truthy current_item) then
      (menu_items, {["description" := line]})
    else if negb (has_price line) && negb is_description then
      if truthy current_item
      then (menu_items, <["name" := line]> current_item)
      else (menu_items, {["name" := line]})
    else st.

Definition extract_menu_items (text : list N) : list (gmap string (list N)) :=
  let '(menu_items, current_item) := fold_left step (clean_lines text) ([], ∅) in
  if truthy current_item then menu_items ++ [current_item] else menu_items.

(** *** The OCR engine and the selection of the best profile *)

(** Tesseract is outside the repository. [image_to_data img config] is the
    column [data['conf']], [image_to_string img config] the text; [None]
    is an exception raised inside the [try] of the loop. *)
Variable image : Type.
Variable image_to_data : image → string → option (list reported).
Variable image_to_string : image → string → option (list N).

Definition ocr_configs : list string :=
  ["--oem 3 --psm 6"; "--oem 3 --psm 4"; "--oem 3 --psm 3"].

(** [sum(confidences)]: a left fold from 0. *)
Definition py_sum (l : list Z) : Z := fold_left Z.add l 0%Z.

(** [int(conf)] for every entry of the column; the first entry on which
    [int] raises ends the comprehension, and the body of the [try]. *)
Fixpoint int_scores (conf : list reported) : option (list Z) :=
  match conf with
  | [] => Some []
  | c :: rest =>
      match py_int c with
      | None => None
      | Some z =>
          match int_scores rest with
          | None => None
          | Some zs => Some (z :: zs)
          end
      end
  end.

(** [confidences = [int(conf) for conf in data['conf'] if int(conf) > 0]]
    and [sum(confidences) / len(confidences) if confidences else 0]: the
    [int] 0, or the [float] that the division of two [int]s gives. [None]
    is an exception: of [int], or of a quotient too large for a double. *)
Definition avg_confidence (conf : list reported) : option Q :=
  match int_scores conf with
  | None => None
  | Some scores =>
      let confidences := List.filter (λ c, 0 <? c)%Z scores in
      match confidences with
      | [] => Some 0%Q
      | _ :: _ => true_div (py_sum confidences) (Z.of_nat (length confidences))
      end
  end.

(** [a > b] on numbers. *)
Definition Qgt_bool (a b : Q) : bool := negb (Qle_bool a b).

(** What the body of the [try] computes before the comparison: the text
    and its average confidence, or nothing when a call raised. *)
Definition candidate (img : image) (config : string) : option (list N * Q) :=
  match image_to_data img config with
  | None => None
  | Some conf =>
      match avg_confidence conf with
      | None => None
      | Some avg =>
          match image_to_string img config with
          | None => None
          | Some text => Some (text, avg)
          end
      end
  end.

(** The comparison that ends the body; [best] is
    [(best_text, best_confidence)]. An exception leaves it as it is. *)
Definition keep_best (best : list N * Q) (cand : option (list N * Q)) : list N * Q :=
  match cand with
  | Some (text, avg) => if Qgt_bool avg best.2 then (text, avg) else best
  | None => best
  end.

Definition select_loop (cands : list (option (list N * Q))) : list N * Q :=
  fold_left keep_best cands ([], 0%Q).

Definition ocr_select (img : image) : list N * Q :=
  select_loop (List.map (candidate img) ocr_configs).

(** *** The translation client *)

(** [googletrans.Translator] is a process-wide object that talks to a
    remote service: its answers depend on a state of its own. Every call
    made on it is recorded in [calls]. *)
Variable backend : Type.
Variable backend_detect : list N → backend → option (list N) * backend.
Variable backend_translate : list N → list N → backend → option (list N) * backend.

Inductive call : Type :=
| Detect (text : list N)
| Translate (text dest : list N).

Record world : Type := World { calls : list call; client : backend }.

Definition M (A : Type) : Type := world → A * world.
Definition ret {A} (a : A) : M A := λ w, (a, w).
Definition bind {A B} (c : M A) (k : A → M B) : M B :=
  λ w, let '(a, w') := c w in k a w'.

Notation "'call!' x <~ c ;; k" := (bind c (λ x, k))
  (at level 20, x name, c at level 99, k at level 200).

(** [translator.detect(text).lang] *)
Definition translator_detect (text : list N) : M (option (list N)) :=
  λ w, let '(r, b) := backend_detect text (client w) in
       (r, World (calls w ++ [Detect text]) b).

(** [translator.translate(text, dest=target_lang).text] *)
Definition translator_translate (text dest : list N) : M (option (list N)) :=
  λ w, let '(r, b) := backend_translate text dest (client w) in
       (r, World (calls w ++ [Translate text dest]) b).

Definition detect_language (text : list N) : M (list N) :=
  call! r <~ translator_detect text ;;
  ret (match r with Some lang => lang | None => py "unknown" end).

Definition translate_text (text target_lang : list N) : M (list N) :=
  if bool_decide (target_lang = py "en") then ret text
  else
    call! r <~ translator_translate text target_lang ;;
    ret (match r with Some translated => translated | None => text end).

(** *** The translation of the items *)

(** The body of [for key in ['name', 'description']]. *)
Definition translate_key (target_lang : list N) (key : string)
    (item : gmap string (list N)) : M (gmap string (list N)) :=
  match item !! key with
  | Some v =>
      call! t <~ translate_text v target_lang ;;
      ret (<[key +:+ "_translated" := t]> item)
  | None => ret item
  end.

Definition translate_item (target_lang : list N)
    (item : gmap string (list N)) : M (gmap string (list N)) :=
  call! item <~ translate_key target_lang "name" item ;;
  translate_key target_lang "description" item.

Fixpoint for_each {A B} (f : A → M B) (l : list A) : M (list B) :=
  match l with
  | [] => ret []
  | a :: l' => call! b <~ f a ;; call! bs <~ for_each f l' ;; ret (b :: bs)
  end.

(** [if target_lang != 'en' and detected_lang != target_lang: ...]. The
    loop writes into the dicts of the list; no two entries of the list are
    the same dict ([extract_menu_items] binds a new one after every append),
    so the updated list is the list of the updated items. *)
Definition translate_menu (target_lang detected_lang : list N)
    (menu_items : list (gmap string (list N))) : M (list (gmap string (list N))) :=
  if bool_decide (target_lang ≠ py "en") && bool_decide (detected_lang ≠ target_lang)
  then for_each (translate_item target_lang) menu_items
  else ret menu_items.

(** *** [ocr_endpoint], from the preprocessed image on

    The upload checks, [cv2.imread] and [preprocess_image] come before and
    are not modelled; the handler is taken up at [processed_image]. *)

Record ocr_result : Type := OcrResult {
  success : bool;
  detected_language : list N;
  target_language : list N;
  confidence : Q;
  raw_text : list N;
  menu_items : list (gmap string (list N));
  total_items : nat
}.

Inductive response : Type :=
| Error (status : Z) (error : string)
| Json (body : ocr_result).

Definition no_text_detected : response := Error 400 "No text detected in image".

Definition ocr_endpoint (processed_image : image) (target_lang : list N) : M response :=
  let '(best_text, best_confidence) := ocr_select processed_image in
  if negb (nonempty (strip best_text)) then ret no_text_detected
  else
    call! detected_lang <~ detect_language best_text ;;
    call! items <~ translate_menu target_lang detected_lang (extract_menu_items best_text) ;;
    ret (Json (OcrResult true detected_lang target_lang best_confidence best_text
                 items (length items))).

(** *** Notions for the statements about the segmenter *)

(** An item that a price line closed. *)
Definition closed (item : gmap string (list N)) : Prop :=
  is_Some (item !! "price") ∧ is_Some (item !! "full_text").

(** An item that was still open when the lines ran out. *)
Definition partial (item : gmap string (list N)) : Prop :=
  item ≠ ∅ ∧ item !! "price" = None ∧ item !! "full_text" = None.

(** A line is short when fewer than 3 characters are left of it after
    [strip]. *)
Definition long_line (line : list N) : bool := negb (length (strip line) <? 3)%nat.

(** The text without its short lines. *)
Definition drop_short_lines (text : list N) : list N :=
  join newline (List.filter long_line (split newline text)).

(** The inputs of the examples. *)
Definition pasta_text : list N :=
  py "Pasta" ++ newline :: py "Delicious handmade pasta with truffle sauce"
    ++ newline :: py "$12.50".

Definition pasta_item : gmap string (list N) :=
  <["full_text" := py "Pasta $12.50"]>
    (<["price" := py "$12.50"]> {["name" := py "Pasta"]}).

(** The invariant of the loop: every item appended so far is closed, and
    the accumulator carries neither a price nor a full text. *)
Definition loop_inv (st : list (gmap string (list N)) * gmap string (list N)) : Prop :=
  Forall closed st.1 ∧ st.2 !! "price" = None ∧ st.2 !! "full_text" = None.

(** *** Notions for the statements about the selector *)

(** The scores above 0, their sum and their number, read off the list. *)
Fixpoint positive_total (scores : list Z) : Z :=
  match scores with
  | [] => 0
  | c :: rest => if (0 <? c)%Z then c + positive_total rest else positive_total rest
  end%Z.

Fixpoint positive_count (scores : list Z) : nat :=
  match scores with
  | [] => 0
  | c :: rest => if (0 <? c)%Z then S (positive_count rest) else positive_count rest
  end%nat.

(** The arithmetic mean of the scores above 0, and 0 when there is none. *)
Definition mean_of_positive (scores : list Z) : Q :=
  positive_total scores # Z.to_pos (Z.of_nat (positive_count scores)).

(** [v] is [mean] up to the rounding of a double: one part in 2^53. *)
Definition rounds_to (v mean : Q) : Prop :=
  (inject_Z (2 ^ 53 - 1) * mean <= inject_Z (2 ^ 53) * v)%Q
  ∧ (inject_Z (2 ^ 53) * v <= inject_Z (2 ^ 53 + 1) * mean)%Q.

(** The scores as the engine reports them, those above 0, and their
    arithmetic mean. *)
Definition score_value (c : reported) : option Q :=
  match c with
  | Int z => Some (inject_Z z)
  | Float q => Some q
  | Unreadable => None
  end.

Definition positive_values (conf : list reported) : list Q :=
  List.filter (λ q, Qgt_bool q 0) (omap score_value conf).

Definition exact_mean (qs : list Q) : Q :=
  match qs with
  | [] => 0%Q
  | _ :: _ => (fold_right Qplus 0 qs / inject_Z (Z.of_nat (length qs)))%Q
  end.

(** The average confidence is the arithmetic mean of the reported scores
    that are above 0. *)
Definition equals_mean_of_positive_scores (conf : list reported) : Prop :=
  ∃ v, avg_confidence conf = Some v ∧ (v == exact_mean (positive_values conf))%Q.

(** A text that is empty or made of white space only. *)
Definition blank (s : list N) : Prop := Forall (λ c, isspace c = true) s.

(** The candidate at position [i] of [cands] has the highest confidence of
    those that succeeded, and is the first to have it. *)
Definition first_highest (cands : list (option (list N * Q))) (i : nat)
    (best : list N * Q) : Prop :=
  cands !! i = Some (Some best)
  ∧ (∀ j t q, cands !! j = Some (Some (t, q)) → (q <= best.2)%Q)
  ∧ (∀ j t q, (j < i)%nat → cands !! j = Some (Some (t, q)) → (q < best.2)%Q).

(** The selector keeps the successful candidate of highest confidence,
    whatever that confidence is. *)
Definition keeps_highest_success (cands : list (option (list N * Q))) : Prop :=
  ∀ i best, first_highest cands i best → select_loop cands = best.

(** The answer is "No text detected" exactly when every profile fails or
    the best candidate, the first of highest confidence among the profiles
    that succeed, has a blank text. *)
Definition no_text_iff_all_fail_or_best_blank
    (resp : response) (cands : list (option (list N * Q))) : Prop :=
  resp = no_text_detected
  ↔ Forall (λ cand, cand = None) cands
    ∨ ∃ i best, first_highest cands i best ∧ blank best.1.

(** *** Notions for the statements about the translation *)

(** Apart from the two synthesized keys, [item'] has the keys of [item]
    and no other, each with the value it has in [item]. *)
Definition same_fields (item item' : gmap string (list N)) : Prop :=
  ∀ key, key ≠ "name_translated" → key ≠ "description_translated" →
         item' !! key = item !! key.

(** The translation of [field] is in [item'] when [item] has the field,
    and is as it was in [item] when it has not. *)
Definition translation_added (field : string)
    (item item' : gmap string (list N)) : Prop :=
  match item !! field with
  | Some _ => is_Some (item' !! (field +:+ "_translated"))
  | None => item' !! (field +:+ "_translated") = item !! (field +:+ "_translated")
  end.

(** An item without the two synthesized keys. *)
Definition untranslated (item : gmap string (list N)) : Prop :=
  item !! "name_translated" = None ∧ item !! "description_translated" = None.

(** The segmenter never writes the synthesized keys. *)
Definition keys_inv (st : list (gmap string (list N)) * gmap string (list N)) : Prop :=
  Forall untranslated st.1 ∧ untranslated st.2.

(** The two keys that the f-string of the loop builds. *)
Ltac synthesized_keys :=
  change ("name" +:+ "_translated") with "name_translated" in *;
  change ("description" +:+ "_translated") with "description_translated" in *.

(** *** Notions for the shape of a price *)

Definition currency_codes : list (list N) :=
  [py "USD"; py "EUR"; py "GBP"; py "JPY"; py "INR"].

(** The least a line has to contain to have a price: a currency symbol and
    a digit, in either order, or a digit and a currency code, with any
    amount of white space between the two. *)
Definition price_core (p : list N) : Prop :=
  ∃ ws, Forall (λ c, isspace c = true) ws
    ∧ ((∃ c d, currency_symbol c = true ∧ isdecimal d = true ∧ p = c :: ws ++ [d])
       ∨ (∃ d c, isdecimal d = true ∧ currency_symbol c = true ∧ p = d :: ws ++ [c])
       ∨ (∃ d code, isdecimal d = true ∧ code ∈ currency_codes ∧ p = d :: ws ++ code)).

(** *** Notions for the records of the segmenter *)

(** The keys an item may have, and the keys it may have while it is open. *)
Definition own_keys (item : gmap string (list N)) : Prop :=
  ∀ key, is_Some (item !! key) →
         key = "name" ∨ key = "description" ∨ key = "price" ∨ key = "full_text".

Definition open_keys (item : gmap string (list N)) : Prop :=
  ∀ key, is_Some (item !! key) → key = "name" ∨ key = "description".

Definition titled (item : gmap string (list N)) : Prop :=
  is_Some (item !! "name") ∨ is_Some (item !! "description").

(** Where the values come from; [lines] are the lines the loop runs over. *)
Definition name_line (lines : list (list N)) (item : gmap string (list N)) : Prop :=
  ∀ v, item !! "name" = Some v →
       v ∈ lines ∧ (3 ≤ length v ≤ 20)%nat ∧ has_price v = false.

Definition description_line (lines : list (list N))
    (item : gmap string (list N)) : Prop :=
  ∀ v, item !! "description" = Some v →
       v ∈ lines ∧ (20 < length v)%nat ∧ has_price v = false.

Definition price_line (lines : list (list N)) (item : gmap string (list N)) : Prop :=
  ∀ g, item !! "price" = Some g →
       ∃ line, line ∈ lines ∧ (3 ≤ length line)%nat
               ∧ Re.search price_pattern line = Some g
               ∧ item !! "full_text"
                 = Some (default [] (item !! "name") ++ py " " ++ line).

Definition item_ok (lines : list (list N)) (item : gmap string (list N)) : Prop :=
  own_keys item ∧ titled item ∧ name_line lines item
  ∧ description_line lines item ∧ price_line lines item.

Definition open_ok (lines : list (list N)) (item : gmap string (list N)) : Prop :=
  open_keys item ∧ name_line lines item ∧ description_line lines item.

Definition records_inv (lines : list (list N))
    (st : list (gmap string (list N)) * gmap string (list N)) : Prop :=
  Forall (item_ok lines) st.1 ∧ open_ok lines st.2.

(** A line the loop does nothing with while no item is open. *)
Definition idle_line (line : list N) : bool :=
  (length line <? 3)%nat || has_price line.

(** Something has been appended or is being accumulated. *)
Definition started (st : list (gmap string (list N)) * gmap string (list N)) : Prop :=
  st.1 ≠ [] ∨ st.2 ≠ ∅.

(** The stripped lines of a text that have 3 characters or more. *)
Definition long_stripped_lines (text : list N) : list (list N) :=
  List.filter (λ l, negb (length l <? 3)%nat) (List.map strip (split newline text)).

(** *** [allowed_file] *)

(** [str.lower()] on a string with a character beyond ASCII follows the
    Unicode tables of the interpreter (case mappings, final sigma), which
    are not in the repository. *)
Variable unicode_lower : list N → list N.

Definition ascii_lower (c : N) : N :=
  if (65 <=? c) && (c <=? 90) then c + 32 else c.

(** [s.lower()] *)
Definition lower (s : list N) : list N :=
  if forallb (λ c, c <? 128) s then List.map ascii_lower s else unicode_lower s.

(** The set [ALLOWED_EXTENSIONS]; only membership is asked of it. *)
Definition ALLOWED_EXTENSIONS : list (list N) :=
  [py "png"; py "jpg"; py "jpeg"; py "gif"; py "bmp"; py "tiff"].

Definition dot : N := 46.

(** [s.rsplit(sep, 1)] for a separator of one character: the string cut at
    the last separator, or the string alone when it has none. *)
Fixpoint rsplit1 (sep : N) (s : list N) : list (list N) :=
  match s with
  | [] => [[]]
  | c :: s' =>
      match rsplit1 sep s' with
      | [stem; ext] => [c :: stem; ext]
      | [whole] => if c =? sep then [[]; whole] else [c :: whole]
      | other => other
      end
  end.

(** ['.' in filename and filename.rsplit('.', 1)[1].lower() in
    ALLOWED_EXTENSIONS]; [None] is the [IndexError] of the subscript. *)
Definition allowed_file (filename : list N) : option bool :=
  if existsb (N.eqb dot) filename then
    match rsplit1 dot filename !! 1%nat with
    | Some ext => Some (bool_decide (lower ext ∈ ALLOWED_EXTENSIONS))
    | None => None
    end
  else Some false.

(** *** Notions for the statements about the handler *)

(** The calls to the client that the translation of one item makes. *)
Definition item_calls (target_lang : list N) (item : gmap string (list N)) : list call :=
  match item !! "name" with Some v => [Translate v target_lang] | None => [] end
  ++ match item !! "description" with Some v => [Translate v target_lang] | None => [] end.

(** The value under the translated key of [field] is the value of the
    field or an answer of the client for it. *)
Definition translated_or_original (target_lang : list N) (field : string)
    (item item' : gmap string (list N)) : Prop :=
  ∀ v, item !! field = Some v →
       ∃ t, item' !! (field +:+ "_translated") = Some t
            ∧ (t = v ∨ ∃ b, (backend_translate v target_lang b).1 = Some t).

(** *** Notions for the lines of a menu *)

(** What the loop takes for a name, and for a description. *)
Definition name_like (line : list N) : Prop :=
  (3 ≤ length line ≤ 20)%nat ∧ has_price line = false.

Definition description_like (line : list N) : Prop :=
  (20 < length line)%nat ∧ has_price line = false.

(** A profile that can replace the best one: it succeeded with an average
    confidence above 0. *)
Definition counts (cand : option (list N * Q)) : bool :=
  match cand with Some (_, q) => Qgt_bool q 0 | None => false end.

(** ** Properties of the segmenter *)

Lemma truthy_empty : truthy ∅ = false.
Proof. unfold truthy. apply bool_decide_eq_false. intros H. by apply H. Qed.

Lemma truthy_true (d : gmap string (list N)) : truthy d = true ↔ d ≠ ∅.
Proof. unfold truthy. apply bool_decide_eq_true. Qed.

Lemma truthy_insert (k : string) (v : list N) (d : gmap string (list N)) :
  truthy (<[k := v]> d) = true.
Proof. apply truthy_true, insert_non_empty. Qed.

(** C6: the price pattern finds a price in "$12.50", "12.50$", "12 USD"
    and "₹100" (U+20B9 then "100"), and none in "twelve dollars". *)
Theorem price_pattern_examples :
  has_price (py "$12.50") = true
  ∧ has_price (py "12.50$") = true
  ∧ has_price (py "12 USD") = true
  ∧ has_price (0x20B9 :: py "100") = true
  ∧ has_price (py "twelve dollars") = false.
Proof. repeat split; vm_compute; reflexivity. Qed.

(** C2: on "Pasta\nDelicious handmade pasta with truffle sauce\n$12.50" the
    segmenter returns one item, with name "Pasta", price "$12.50" and
    full_text "Pasta $12.50"; the description line is in no field of it
    and the item has no description. *)
Theorem pasta_example :
  extract_menu_items pasta_text = [pasta_item]
  ∧ pasta_item !! "name" = Some (py "Pasta")
  ∧ pasta_item !! "price" = Some (py "$12.50")
  ∧ pasta_item !! "full_text" = Some (py "Pasta $12.50")
  ∧ dom pasta_item = {["name"; "price"; "full_text"]}
  ∧ Forall (λ item : gmap string (list N),
      ∀ key, item !! key ≠ Some (py "Delicious handmade pasta with truffle sauce"))
      (extract_menu_items pasta_text).
Proof.
  assert (Hrun : extract_menu_items pasta_text = [pasta_item])
    by (vm_compute; reflexivity).
  rewrite Hrun. split; [done|]. split; [done|]. split; [done|]. split; [done|].
  split.
  - unfold pasta_item. rewrite !dom_insert_L, dom_singleton_L. set_solver.
  - constructor; [|constructor]. intros key. unfold pasta_item.
    rewrite !lookup_insert. repeat case_decide; try done.
    rewrite lookup_singleton. case_decide; done.
Qed.

(** C10: a line with a price met while no item is open changes nothing:
    no item is appended and the accumulator stays empty. A line with a
    price changes the state only when an item is open, and then it closes
    that item. *)
Theorem price_line_without_item_dropped
    (items : list (gmap string (list N))) (line : list N) :
  has_price line = true →
  step (items, ∅) line = (items, ∅)
  ∧ ∀ current_item, step (items, current_item) line ≠ (items, current_item) →
      current_item ≠ ∅
      ∧ ∃ item, closed item ∧ step (items, current_item) line = (items ++ [item], ∅).
Proof.
  intros Hp. split.
  - unfold step. rewrite Hp, truthy_empty. simpl.
    destruct (length line <? 3)%nat; [done|]. by rewrite andb_false_r.
  - intros cur. unfold step. rewrite Hp. simpl.
    destruct (length line <? 3)%nat; [done|].
    rewrite andb_false_r. simpl.
    destruct (truthy cur) eqn:Ht; [|done].
    intros _. split; [by apply truthy_true|].
    eexists. split; [|reflexivity]. split.
    + rewrite lookup_insert_ne by done. rewrite lookup_insert_eq. by eexists.
    + rewrite lookup_insert_eq. by eexists.
Qed.

Lemma step_inv st (line : list N) : loop_inv st → loop_inv (step st line).
Proof.
  destruct st as [items cur]. intros (Hitems & Hp & Hf). unfold step.
  destruct (length line <? 3)%nat; [by repeat split|].
  destruct (has_price line && truthy cur).
  { repeat split; simpl; [|done..]. apply Forall_app. split; [done|].
    constructor; [|constructor]. split.
    - rewrite lookup_insert_ne by done. rewrite lookup_insert_eq. by eexists.
    - rewrite lookup_insert_eq. by eexists. }
  destruct ((20 <? length line)%nat && negb (has_price line) && negb (truthy cur)).
  { repeat split; simpl; [done|..]; by rewrite lookup_singleton_ne. }
  destruct (negb (has_price line) && negb ((20 <? length line)%nat && negb (has_price line))).
  - destruct (truthy cur); repeat split; simpl; try done;
      try (by rewrite lookup_singleton_ne); by rewrite lookup_insert_ne.
  - by repeat split.
Qed.

Lemma fold_step_inv (lines : list (list N)) st :
  loop_inv st → loop_inv (fold_left step lines st).
Proof.
  revert st. induction lines as [|line lines IH]; intros st Hst; [done|].
  simpl. apply IH, step_inv, Hst.
Qed.

(** C5: the output is a run of closed items (each has a price and a full
    text), followed by at most one partial record, which has neither. *)
Theorem only_last_item_partial (text : list N) :
  ∃ done rest,
    extract_menu_items text = done ++ rest
    ∧ Forall closed done
    ∧ (rest = [] ∨ ∃ item, rest = [item] ∧ partial item).
Proof.
  unfold extract_menu_items.
  pose proof (fold_step_inv (clean_lines text) ([], ∅)) as Hinv.
  destruct (fold_left step (clean_lines text) ([], ∅)) as [items cur].
  destruct Hinv as (Hitems & Hp & Hf).
  { repeat split; [constructor|apply lookup_empty..]. }
  simpl in *. destruct (truthy cur) eqn:Ht.
  - exists items, [cur]. repeat split; [done|]. right. exists cur.
    repeat split; [by apply truthy_true|done..].
  - exists items, []. rewrite app_nil_r. repeat split; [done|]. by left.
Qed.

(** The loop skips the lines of fewer than 3 characters. *)
Lemma fold_step_skips_short (lines : list (list N)) st :
  fold_left step lines st
  = fold_left step (List.filter (λ l, negb (length l <? 3)%nat) lines) st.
Proof.
  revert st. induction lines as [|line lines IH]; intros st; [done|].
  simpl. destruct (length line <? 3)%nat eqn:Hlen; simpl.
  - rewrite <- IH. f_equal. destruct st. unfold step. by rewrite Hlen.
  - apply IH.
Qed.

Lemma long_clean_lines (ls : list (list N)) :
  List.filter (λ l, negb (length l <? 3)%nat)
    (List.map strip (List.filter (λ line, nonempty (strip line)) ls))
  = List.map strip (List.filter long_line ls).
Proof.
  induction ls as [|l ls IH]; [done|]. simpl. unfold long_line at 1.
  destruct (strip l) as [|c s] eqn:Hs; simpl.
  - apply IH.
  - rewrite Hs. simpl. destruct (length s <? 2)%nat eqn:Hlen.
    + replace (S (length s) <? 3)%nat with true
        by (symmetry; apply Nat.ltb_lt; apply Nat.ltb_lt in Hlen; lia).
      simpl. apply IH.
    + replace (S (length s) <? 3)%nat with false
        by (symmetry; apply Nat.ltb_ge; apply Nat.ltb_ge in Hlen; lia).
      simpl. rewrite Hs. f_equal. apply IH.
Qed.

Lemma long_line_idem (ls : list (list N)) :
  List.filter long_line (List.filter long_line ls) = List.filter long_line ls.
Proof.
  induction ls as [|l ls IH]; [done|]. simpl.
  destruct (long_line l) eqn:Hl; simpl; [rewrite Hl; f_equal|]; apply IH.
Qed.

Lemma split_cons_inv sep (s : list N) : ∃ l ls, split sep s = l :: ls.
Proof.
  induction s as [|c s (l & ls & IH)]; simpl; [by eexists _, _|].
  destruct (c =? sep); [by eexists _, _|]. rewrite IH. by eexists _, _.
Qed.

Lemma split_no_sep sep (s : list N) : Forall (λ l, sep ∉ l) (split sep s).
Proof.
  induction s as [|c s IH]; simpl.
  - constructor; [|constructor]. apply not_elem_of_nil.
  - destruct (c =? sep) eqn:Hc.
    + constructor; [apply not_elem_of_nil|done].
    + apply N.eqb_neq in Hc.
      destruct (split sep s) as [|l ls]; inversion IH; subst;
        (constructor; [|done]); apply not_elem_of_cons; split;
        try congruence; try done; apply not_elem_of_nil.
Qed.

Lemma split_line sep (l : list N) : sep ∉ l → split sep l = [l].
Proof.
  induction l as [|c l IH]; intros Hl; simpl; [done|].
  destruct (c =? sep) eqn:Hc.
  - apply N.eqb_eq in Hc. set_solver.
  - rewrite IH by set_solver. done.
Qed.

Lemma split_app_sep sep (l rest : list N) :
  sep ∉ l → split sep (l ++ sep :: rest) = l :: split sep rest.
Proof.
  induction l as [|c l IH]; intros Hl; simpl.
  - by rewrite N.eqb_refl.
  - destruct (c =? sep) eqn:Hc.
    + apply N.eqb_eq in Hc. set_solver.
    + rewrite IH by set_solver. done.
Qed.

(** [split] undoes [join] on a list of lines that is not empty. *)
Lemma split_join sep (ls : list (list N)) :
  ls ≠ [] → Forall (λ l, sep ∉ l) ls → split sep (join sep ls) = ls.
Proof.
  induction ls as [|l ls IH]; intros Hne Hall; [done|].
  inversion Hall as [|? ? Hl Hls]; subst.
  destruct ls as [|l' ls]; simpl.
  - by apply split_line.
  - rewrite split_app_sep by done. f_equal. by apply IH.
Qed.

(** C7: the lines that are shorter than 3 characters once stripped have no
    part in the output: the text without them yields the same items. *)
Theorem short_lines_ignored (text : list N) :
  extract_menu_items text = extract_menu_items (drop_short_lines text).
Proof.
  assert (Hlines :
    List.filter (λ l, negb (length l <? 3)%nat) (clean_lines text)
    = List.filter (λ l, negb (length l <? 3)%nat)
        (clean_lines (drop_short_lines text))).
  { unfold clean_lines, drop_short_lines. rewrite !long_clean_lines.
    destruct (List.filter long_line (split newline text)) as [|l ls] eqn:Hlong.
    - reflexivity.
    - rewrite split_join.
      + rewrite <- Hlong. by rewrite long_line_idem.
      + done.
      + rewrite <- Hlong.
        pose proof (split_no_sep newline text) as Hall.
        rewrite Forall_forall in Hall. apply Forall_forall.
        intros x Hx. apply Hall. apply list_elem_of_In.
        apply list_elem_of_In in Hx. apply filter_In in Hx. tauto. }
  unfold extract_menu_items.
  rewrite (fold_step_skips_short (clean_lines text)).
  rewrite (fold_step_skips_short (clean_lines (drop_short_lines text))).
  by rewrite Hlines.
Qed.

(** ** Properties of the selector *)

Lemma py_sum_from (l : list Z) (a : Z) :
  fold_left Z.add l a = (a + fold_left Z.add l 0)%Z.
Proof.
  revert a. induction l as [|x l IH]; intros a; cbn [fold_left]; [lia|].
  rewrite (IH (a + x)%Z), (IH (0 + x)%Z). lia.
Qed.

Lemma py_sum_filter (conf : list Z) :
  py_sum (List.filter (λ c, 0 <? c)%Z conf) = positive_total conf.
Proof.
  unfold py_sum. induction conf as [|c conf IH]; simpl; [done|].
  destruct (0 <? c)%Z; simpl; [|done]. rewrite py_sum_from, IH. done.
Qed.

Lemma length_filter_positive (conf : list Z) :
  length (List.filter (λ c, 0 <? c)%Z conf) = positive_count conf.
Proof.
  induction conf as [|c conf IH]; simpl; [done|].
  destruct (0 <? c)%Z; simpl; by rewrite ?IH.
Qed.

Lemma Qgt_bool_true (a b : Q) : Qgt_bool a b = true ↔ (b < a)%Q.
Proof.
  unfold Qgt_bool. rewrite negb_true_iff, <- not_true_iff_false, Qle_bool_iff.
  split; [apply Qnot_le_lt | apply Qlt_not_le].
Qed.

Lemma Qgt_bool_false (a b : Q) : Qgt_bool a b = false ↔ (a <= b)%Q.
Proof. unfold Qgt_bool. by rewrite negb_false_iff, Qle_bool_iff. Qed.

Lemma select_loop_snoc (cands : list (option (list N * Q))) cand :
  select_loop (cands ++ [cand]) = keep_best (select_loop cands) cand.
Proof. unfold select_loop. by rewrite fold_left_app. Qed.

Lemma lookup_snoc_inv {A} (l : list A) (x y : A) (j : nat) :
  (l ++ [x]) !! j = Some y → l !! j = Some y ∨ (j = length l ∧ y = x).
Proof.
  rewrite lookup_app_Some. intros [H|[Hj H]]; [by left|right].
  destruct (j - length l)%nat as [|n] eqn:Hn; simpl in H; [|done].
  split; [lia|congruence].
Qed.

(** What the loop has kept after any number of profiles. *)
Lemma select_loop_spec (cands : list (option (list N * Q))) :
  (select_loop cands = ([], 0%Q)
   ∧ ∀ j t q, cands !! j = Some (Some (t, q)) → (q <= 0)%Q)
  ∨ ((0 < (select_loop cands).2)%Q
     ∧ ∃ i, first_highest cands i (select_loop cands)).
Proof.
  induction cands as [|cand cands IH] using rev_ind.
  { left. split; [done|]. intros j t q H. by destruct j. }
  rewrite select_loop_snoc.
  assert (Hbound : ∀ j t q, cands !! j = Some (Some (t, q)) →
                     (q <= (select_loop cands).2)%Q).
  { destruct IH as [[-> Hall]|[_ [i (_ & Hmax & _)]]]; eauto. }
  assert (Hnonneg : (0 <= (select_loop cands).2)%Q).
  { destruct IH as [[-> _]|[Hpos _]]; [apply Qle_refl|by apply Qlt_le_weak]. }
  destruct cand as [[t q]|]; unfold keep_best.
  - destruct (Qgt_bool q (select_loop cands).2) eqn:Hgt.
    + apply Qgt_bool_true in Hgt. right. cbn [fst snd]. split.
      { by eapply Qle_lt_trans. }
      exists (length cands). split; [|split]; cbn [fst snd].
      * by rewrite lookup_app_r, Nat.sub_diag.
      * intros j t' q' Hj. apply lookup_snoc_inv in Hj as [Hj|[_ Hj]].
        -- apply Qlt_le_weak. eapply Qle_lt_trans; [|exact Hgt]. eauto.
        -- injection Hj as -> ->. apply Qle_refl.
      * intros j t' q' Hlt Hj. rewrite lookup_app_l in Hj by done.
        eapply Qle_lt_trans; [|exact Hgt]. eauto.
    + apply Qgt_bool_false in Hgt.
      destruct IH as [[Hinit Hall]|[Hpos [i (Hi & Hmax & Hfirst)]]].
      * left. split; [done|]. intros j t' q' Hj.
        apply lookup_snoc_inv in Hj as [Hj|[_ Hj]]; [eauto|].
        injection Hj as -> ->. by rewrite Hinit in Hgt.
      * right. split; [done|]. exists i. split; [|split].
        -- rewrite lookup_app_l; [done|]. by eapply lookup_lt_Some.
        -- intros j t' q' Hj.
           apply lookup_snoc_inv in Hj as [Hj|[_ Hj]]; [eauto|].
           by injection Hj as -> ->.
        -- intros j t' q' Hlt Hj. apply lookup_lt_Some in Hi.
           rewrite lookup_app_l in Hj by lia. eauto.
  - destruct IH as [[Hinit Hall]|[Hpos [i (Hi & Hmax & Hfirst)]]].
    + left. split; [done|]. intros j t' q' Hj.
      apply lookup_snoc_inv in Hj as [Hj|[_ Hj]]; [eauto|done].
    + right. split; [done|]. exists i. split; [|split].
      * rewrite lookup_app_l; [done|]. by eapply lookup_lt_Some.
      * intros j t' q' Hj.
        apply lookup_snoc_inv in Hj as [Hj|[_ Hj]]; [eauto|done].
      * intros j t' q' Hlt Hj. apply lookup_lt_Some in Hi.
        rewrite lookup_app_l in Hj by lia. eauto.
Qed.

(** C3, as the code has it: among the profiles that succeed with an
    average confidence above 0, the selector keeps the one of highest
    confidence, and the first of them when several have it (the comparison
    is strict); when no profile succeeds with a confidence above 0 it keeps
    the empty text and the confidence 0 it started from. With three
    profiles that succeed with confidences 40, 85 and 60 it returns the
    text of the second and the confidence 85. *)
Theorem selector_keeps_first_highest_positive :
  (∀ cands : list (option (list N * Q)),
      (select_loop cands = ([], 0%Q)
       ∧ ∀ j t q, cands !! j = Some (Some (t, q)) → (q <= 0)%Q)
      ∨ ((0 < (select_loop cands).2)%Q
         ∧ ∃ i, first_highest cands i (select_loop cands)))
  ∧ (∀ img c1 c2 c3 a1 a2 a3 t1 t2 t3,
      image_to_data img "--oem 3 --psm 6" = Some c1 →
      image_to_data img "--oem 3 --psm 4" = Some c2 →
      image_to_data img "--oem 3 --psm 3" = Some c3 →
      image_to_string img "--oem 3 --psm 6" = Some t1 →
      image_to_string img "--oem 3 --psm 4" = Some t2 →
      image_to_string img "--oem 3 --psm 3" = Some t3 →
      avg_confidence c1 = Some a1 →
      avg_confidence c2 = Some a2 →
      avg_confidence c3 = Some a3 →
      (a1 == 40)%Q → (a2 == 85)%Q → (a3 == 60)%Q →
      ocr_select img = (t2, a2)
      ∧ ((ocr_select img).2 == 85)%Q).
Proof.
  split; [apply select_loop_spec|].
  intros img c1 c2 c3 a1 a2 a3 t1 t2 t3 Hd1 Hd2 Hd3 Hs1 Hs2 Hs3 Ha1 Ha2 Ha3 H1 H2 H3.
  assert (Hsel : ocr_select img = (t2, a2)).
  { unfold ocr_select, ocr_configs, candidate. simpl.
    rewrite Hd1, Hd2, Hd3, Ha1, Ha2, Ha3, Hs1, Hs2, Hs3. unfold select_loop. simpl.
    assert (Qgt_bool a1 0 = true) as -> by (apply Qgt_bool_true; by rewrite H1).
    simpl.
    assert (Qgt_bool a2 a1 = true) as -> by (apply Qgt_bool_true; by rewrite H1, H2).
    simpl.
    assert (Qgt_bool a3 a2 = false) as -> by (apply Qgt_bool_false; by rewrite H2, H3).
    done. }
  rewrite Hsel. by split.
Qed.

Lemma select_loop_all_fail (cands : list (option (list N * Q))) :
  Forall (λ cand, cand = None) cands → select_loop cands = ([], 0%Q).
Proof.
  induction cands as [|cand cands IH] using rev_ind; [done|].
  intros [Hcands Hcand]%Forall_app. rewrite select_loop_snoc, IH by done.
  inversion Hcand; by subst.
Qed.

Lemma nonempty_false (s : list N) : nonempty s = false ↔ s = [].
Proof. by destruct s. Qed.

(** ** Properties of the translation *)

(** C8: with the target "en" the text comes back as it is and the
    translation client is not called (the world, with its record of calls,
    is the same); with any target, when the call to the client raises, the
    text comes back as it is. *)
Theorem translate_text_best_effort :
  (∀ text w, translate_text text (py "en") w = (text, w))
  ∧ (∀ text target_lang w,
       (backend_translate text target_lang (client w)).1 = None →
       (translate_text text target_lang w).1 = text).
Proof.
  split.
  - intros text w. unfold translate_text. by rewrite bool_decide_eq_true_2.
  - intros text target_lang w Hfail. unfold translate_text.
    case_bool_decide; [done|]. unfold bind, translator_translate, ret.
    destruct (backend_translate text target_lang (client w)) as [r b].
    simpl in *. by subst.
Qed.

Lemma translate_key_frame (target_lang : list N) (key : string)
    (item : gmap string (list N)) (w : world) :
  (∀ k, k ≠ key +:+ "_translated" →
        (translate_key target_lang key item w).1 !! k = item !! k)
  ∧ translation_added key item (translate_key target_lang key item w).1.
Proof.
  unfold translate_key, translation_added.
  destruct (item !! key) as [v|] eqn:Hv; [|done].
  unfold bind, ret. destruct (translate_text v target_lang w) as [t w']. simpl.
  split.
  - intros k Hk. by rewrite lookup_insert_ne.
  - rewrite lookup_insert_eq. by eexists.
Qed.

Lemma translate_item_frame (target_lang : list N)
    (item : gmap string (list N)) (w : world) :
  same_fields item (translate_item target_lang item w).1
  ∧ translation_added "name" item (translate_item target_lang item w).1
  ∧ translation_added "description" item (translate_item target_lang item w).1.
Proof.
  unfold translate_item, bind.
  pose proof (translate_key_frame target_lang "name" item w) as [Hn1 Hn2].
  destruct (translate_key target_lang "name" item w) as [item1 w1].
  pose proof (translate_key_frame target_lang "description" item1 w1) as [Hd1 Hd2].
  destruct (translate_key target_lang "description" item1 w1) as [item2 w2].
  unfold translation_added in *. simpl in *. synthesized_keys.
  split; [|split].
  - intros key Hk1 Hk2. rewrite Hd1 by done. by apply Hn1.
  - rewrite (Hd1 "name_translated") by done.
    destruct (item !! "name"); [done|].
    by rewrite Hn2.
  - rewrite (Hn1 "description") in Hd2 by done.
    destruct (item !! "description"); [done|].
    rewrite Hd2. by apply Hn1.
Qed.

Lemma for_each_Forall2 {A B} (R : A → B → Prop) (f : A → M B) (l : list A) (w : world) :
  (∀ a w', R a (f a w').1) → Forall2 R l (for_each f l w).1.
Proof.
  intros Hf. revert w. induction l as [|a l IH]; intros w; simpl.
  - constructor.
  - unfold bind. specialize (Hf a w). destruct (f a w) as [b w1].
    specialize (IH w1). destruct (for_each f l w1) as [bs w2].
    simpl in *. by constructor.
Qed.

Lemma step_keys_inv st (line : list N) : keys_inv st → keys_inv (step st line).
Proof.
  destruct st as [items cur]. intros (Hitems & Hn & Hd). unfold step.
  destruct (length line <? 3)%nat; [by repeat split|].
  destruct (has_price line && truthy cur).
  { repeat split; simpl; [|done..]. apply Forall_app. split; [done|].
    constructor; [|constructor]. split; by rewrite !lookup_insert_ne. }
  destruct ((20 <? length line)%nat && negb (has_price line) && negb (truthy cur)).
  { repeat split; simpl; [done|..]; by rewrite lookup_singleton_ne. }
  destruct (negb (has_price line) && negb ((20 <? length line)%nat && negb (has_price line))).
  - destruct (truthy cur); repeat split; simpl; try done;
      try (by rewrite lookup_singleton_ne); by rewrite lookup_insert_ne.
  - by repeat split.
Qed.

Lemma extract_menu_items_untranslated (text : list N) :
  Forall untranslated (extract_menu_items text).
Proof.
  unfold extract_menu_items.
  assert (Hfold : ∀ lines st, keys_inv st → keys_inv (fold_left step lines st)).
  { induction lines as [|line lines IH]; intros st Hst; [done|].
    simpl. apply IH, step_keys_inv, Hst. }
  specialize (Hfold (clean_lines text) ([], ∅)).
  destruct (fold_left step (clean_lines text) ([], ∅)) as [items cur].
  destruct Hfold as (Hitems & Hcur).
  { repeat split; [constructor|apply lookup_empty..]. }
  simpl in *. destruct (truthy cur); [|done].
  apply Forall_app. split; [done|]. by constructor.
Qed.

(** C9: the translation keeps the number and the order of the items and,
    in each of them, every key but "name_translated" and
    "description_translated" with its value; when the target is not "en"
    and differs from the detected language, an item gets the translated
    key of each of the two fields it has, and of no field it has not;
    when the target is "en" or is the detected language, the items are
    the same and the client is not called. *)
Theorem translation_only_adds_keys
    (target_lang detected_lang : list N)
    (items : list (gmap string (list N))) (w : world) :
  length (translate_menu target_lang detected_lang items w).1 = length items
  ∧ Forall2 same_fields items (translate_menu target_lang detected_lang items w).1
  ∧ (target_lang ≠ py "en" → detected_lang ≠ target_lang →
     Forall2 (λ item item', translation_added "name" item item'
                            ∧ translation_added "description" item item')
       items (translate_menu target_lang detected_lang items w).1)
  ∧ (target_lang = py "en" ∨ detected_lang = target_lang →
     translate_menu target_lang detected_lang items w = (items, w))
  ∧ (∀ text, Forall untranslated (extract_menu_items text)).
Proof.
  assert (Hsame : Forall2 same_fields items
                    (translate_menu target_lang detected_lang items w).1).
  { unfold translate_menu.
    destruct (bool_decide (target_lang ≠ py "en")
              && bool_decide (detected_lang ≠ target_lang)).
    - apply for_each_Forall2. intros item w'. apply translate_item_frame.
    - simpl. apply Forall2_same_length_lookup_2; [done|].
      intros i x y Hx Hy. assert (x = y) as -> by congruence. by intros key _ _. }
  split; [symmetry; by eapply Forall2_length|]. split; [done|].
  split; [|split; [|apply extract_menu_items_untranslated]].
  - intros Hen Hdet. unfold translate_menu.
    rewrite !bool_decide_eq_true_2 by done. simpl.
    apply for_each_Forall2. intros item w'. apply translate_item_frame.
  - intros Hoff. unfold translate_menu.
    destruct Hoff as [Hen|Hdet].
    + by rewrite (bool_decide_eq_false_2 (target_lang ≠ py "en")) by (by intros H).
    + rewrite (bool_decide_eq_false_2 (detected_lang ≠ target_lang)) by (by intros H).
      by rewrite andb_false_r.
Qed.

(** From here on a proof depends on the parameters of its statement only. *)
Set Default Proof Using "Type".

(** ** The matcher and the language of a pattern *)

Lemma orelse_Some {A} (x y : option A) (e : A) :
  Re.orelse x y = Some e → x = Some e ∨ (x = None ∧ y = Some e).
Proof. destruct x; simpl; intros H; [left|right]; done. Qed.

Lemma orelse_is_Some {A} (x y : option A) :
  is_Some x ∨ is_Some y → is_Some (Re.orelse x y).
Proof. destruct x; simpl; intros [H|H]; try done; by destruct H. Qed.

Lemma matches_min_width (r : Re.regex) (p : list N) :
  Re.matches r p → (Re.min_width r ≤ length p)%nat.
Proof.
  revert p. induction r as [c|cls|r1 IH1 r2 IH2|r1 IH1 r2 IH2|lo hi r IH];
    intros p; simpl.
  - by intros ->.
  - by intros (x & -> & _).
  - intros (p1 & p2 & -> & H1 & H2). rewrite length_app.
    apply IH1 in H1. apply IH2 in H2. lia.
  - intros [H|H]; [apply IH1 in H|apply IH2 in H]; lia.
  - intros (ps & -> & Hall & Hlo & _). revert lo Hlo.
    induction Hall as [|q ps Hq Hall IHps]; intros lo Hlo; simpl in *.
    + assert (lo = 0)%nat as -> by lia. done.
    + rewrite length_app. apply IH in Hq. destruct lo as [|lo]; [simpl; lia|].
      specialize (IHps lo ltac:(lia)). simpl. lia.
Qed.

Lemma max_repeat_sound
    (m : list N → (list N → option (list N)) → option (list N))
    (P : list N → Prop) :
  (∀ s k e, m s k = Some e → ∃ p s', s = p ++ s' ∧ P p ∧ k s' = Some e) →
  ∀ fuel lo hi s k e,
    Re.max_repeat m fuel lo hi s k = Some e →
    ∃ ps s', s = concat ps ++ s' ∧ Forall P ps ∧ (lo ≤ length ps)%nat
             ∧ Re.within hi (length ps) ∧ k s' = Some e.
Proof.
  intros Hm.
  assert (Hstop : ∀ lo hi s (k : list N → option (list N)) e,
             (if Nat.eqb lo 0 then k s else None) = Some e →
             ∃ ps s', s = concat ps ++ s' ∧ Forall P ps ∧ (lo ≤ length ps)%nat
                      ∧ Re.within hi (length ps) ∧ k s' = Some e).
  { intros lo hi s k e H. destruct (Nat.eqb lo 0) eqn:Hlo; [|done].
    apply Nat.eqb_eq in Hlo as ->. exists [], s.
    repeat split; [constructor|done| |done]. destruct hi; simpl; [lia|done]. }
  induction fuel as [|fuel IH]; intros lo hi s k e; simpl; [by apply Hstop|].
  destruct (Re.more_allowed hi) eqn:Hmore; [|by apply Hstop].
  intros [H|[_ H]]%orelse_Some; [|by apply Hstop].
  apply Hm in H as (p & s1 & -> & Hp & H).
  destruct (length s1 <? length (p ++ s1))%nat; [|done].
  apply IH in H as (ps & s' & -> & Hall & Hlo & Hhi & Hk).
  exists (p :: ps), s'. simpl. rewrite <- app_assoc.
  repeat split; [by constructor|lia| |done].
  destruct hi as [[|h]|]; simpl in *; [done|lia|done].
Qed.

Lemma match_at_sound (r : Re.regex) :
  ∀ s k e, Re.match_at r s k = Some e →
           ∃ p s', s = p ++ s' ∧ Re.matches r p ∧ k s' = Some e.
Proof.
  induction r as [c|cls|r1 IH1 r2 IH2|r1 IH1 r2 IH2|lo hi r IH];
    intros s k e; simpl.
  - destruct s as [|x s]; [done|]. destruct (x =? c) eqn:Hx; [|done].
    apply N.eqb_eq in Hx as ->. intros H. by exists [c], s.
  - destruct s as [|x s]; [done|]. destruct (cls x) eqn:Hx; [|done].
    intros H. exists [x], s. repeat split; [|done]. by exists x.
  - intros H. apply IH1 in H as (p1 & s1 & -> & H1 & H).
    apply IH2 in H as (p2 & s2 & -> & H2 & H).
    exists (p1 ++ p2), s2. rewrite <- app_assoc. repeat split; [|done].
    by exists p1, p2.
  - intros [H|[_ H]]%orelse_Some.
    + apply IH1 in H as (p & s' & -> & H1 & H). exists p, s'. by repeat split; [left|].
    + apply IH2 in H as (p & s' & -> & H2 & H). exists p, s'. by repeat split; [right|].
  - intros H. apply (max_repeat_sound _ (Re.matches r) IH) in H
      as (ps & s' & -> & Hall & Hlo & Hhi & Hk).
    exists (concat ps), s'. repeat split; [|done]. by exists ps.
Qed.

Lemma max_repeat_complete
    (m : list N → (list N → option (list N)) → option (list N))
    (P : list N → Prop) :
  (∀ p s' k, P p → is_Some (k s') → is_Some (m (p ++ s') k)) →
  (∀ p, P p → p ≠ []) →
  ∀ ps fuel lo hi s' k,
    Forall P ps → (lo ≤ length ps)%nat → Re.within hi (length ps) →
    (length ps ≤ fuel)%nat → is_Some (k s') →
    is_Some (Re.max_repeat m fuel lo hi (concat ps ++ s') k).
Proof.
  intros Hm Hne. induction ps as [|p ps IH]; intros fuel lo hi s' k Hall Hlo Hhi Hfuel Hk.
  - simpl in *. assert (lo = 0)%nat as -> by lia.
    destruct fuel; simpl; [done|]. destruct (Re.more_allowed hi); [|done].
    apply orelse_is_Some. by right.
  - inversion Hall as [|? ? Hp Hps]; subst. simpl in *.
    destruct fuel as [|fuel]; [lia|]. simpl.
    assert (Re.more_allowed hi = true) as ->.
    { destruct hi as [[|h]|]; simpl in *; [lia|done..]. }
    apply orelse_is_Some. left. rewrite <- app_assoc. apply Hm; [done|].
    assert ((length (concat ps ++ s') <? length (p ++ concat ps ++ s'))%nat = true) as ->.
    { apply Nat.ltb_lt. rewrite (length_app p). specialize (Hne p Hp).
      destruct p; [done|]. simpl. lia. }
    apply IH; [done|lia| |lia|done].
    destruct hi as [h|]; simpl in *; [lia|done].
Qed.

Lemma concat_length_ge (ps : list (list N)) :
  Forall (λ p, p ≠ []) ps → (length ps ≤ length (concat ps))%nat.
Proof.
  induction 1 as [|p ps Hp _ IH]; simpl; [done|].
  rewrite length_app. destruct p; [done|]. simpl. lia.
Qed.

Lemma match_at_complete (r : Re.regex) :
  Re.productive r = true →
  ∀ p s' k, Re.matches r p → is_Some (k s') → is_Some (Re.match_at r (p ++ s') k).
Proof.
  induction r as [c|cls|r1 IH1 r2 IH2|r1 IH1 r2 IH2|lo hi r IH];
    simpl; intros Hprod p s' k.
  - intros -> Hk. simpl. by rewrite N.eqb_refl.
  - intros (x & -> & Hx) Hk. simpl. by rewrite Hx.
  - apply andb_true_iff in Hprod as [Hp1 Hp2].
    intros (p1 & p2 & -> & H1 & H2) Hk. rewrite <- app_assoc.
    apply IH1; [done..|]. by apply IH2.
  - apply andb_true_iff in Hprod as [Hp1 Hp2].
    intros [H|H] Hk; apply orelse_is_Some; [left; by apply IH1|right; by apply IH2].
  - apply andb_true_iff in Hprod as [Hw Hp]. apply Nat.ltb_lt in Hw.
    intros (ps & -> & Hall & Hlo & Hhi) Hk.
    assert (Hne : ∀ q, Re.matches r q → q ≠ []).
    { intros q Hq ->. apply matches_min_width in Hq. simpl in Hq. lia. }
    apply (max_repeat_complete _ (Re.matches r)); try done.
    + intros q t k' Hq Hk'. by apply IH.
    + rewrite length_app. etrans; [apply concat_length_ge|lia].
      eapply Forall_impl; [exact Hall|]. intros q Hq. by apply Hne.
Qed.

Lemma search_unfold (r : Re.regex) (s : list N) :
  Re.search r s
  = match Re.match_at r s Some with
    | Some rest => Some (take (length s - length rest)%nat s)
    | None => match s with [] => None | _ :: s' => Re.search r s' end
    end.
Proof. by destruct s. Qed.

Lemma match_at_Some_split (r : Re.regex) (s rest : list N) :
  Re.match_at r s Some = Some rest →
  ∃ p, s = p ++ rest ∧ Re.matches r p ∧ take (length s - length rest)%nat s = p.
Proof.
  intros Hm. apply match_at_sound in Hm as (p & s' & -> & Hp & [= ->]).
  exists p. repeat split; [done|]. rewrite length_app.
  replace (length p + length rest - length rest)%nat with (length p) by lia.
  by rewrite take_app_length.
Qed.

(** What [re.search] returns is a part of the subject that the pattern
    matches as a whole. *)
Lemma search_sound (r : Re.regex) (s g : list N) :
  Re.search r s = Some g → ∃ pre post, s = pre ++ g ++ post ∧ Re.matches r g.
Proof.
  induction s as [|c s IH]; rewrite search_unfold;
    destruct (Re.match_at r _ Some) as [rest|] eqn:Hm; try done.
  - apply match_at_Some_split in Hm as (p & Hs & Hp & Ht). rewrite Ht.
    intros [= <-]. by exists [], rest.
  - apply match_at_Some_split in Hm as (p & Hs & Hp & Ht). rewrite Ht.
    intros [= <-]. by exists [], rest.
  - intros H. apply IH in H as (pre & post & -> & Hg). by exists (c :: pre), post.
Qed.

(** [re.search] finds a match whenever some part of the subject is in the
    language, and the one it returns starts leftmost. *)
Lemma search_complete (r : Re.regex) (s pre g post : list N) :
  Re.productive r = true → s = pre ++ g ++ post → Re.matches r g →
  ∃ pre' g' post', Re.search r s = Some g' ∧ s = pre' ++ g' ++ post'
                   ∧ Re.matches r g' ∧ (length pre' ≤ length pre)%nat.
Proof.
  intros Hprod. revert pre. induction s as [|c s IH]; intros pre Hs Hg;
    rewrite search_unfold; destruct (Re.match_at r _ Some) as [rest|] eqn:Hm.
  - apply match_at_Some_split in Hm as (p & Hp & Hmp & Ht). rewrite Ht.
    exists [], p, rest. repeat split; [done..|simpl; lia].
  - destruct pre; [|done]. simpl in Hs.
    destruct (match_at_complete r Hprod g post Some Hg) as [rest H]; [done|].
    rewrite <- Hs in H. congruence.
  - apply match_at_Some_split in Hm as (p & Hp & Hmp & Ht). rewrite Ht.
    exists [], p, rest. repeat split; [done..|simpl; lia].
  - destruct pre as [|c' pre].
    + simpl in Hs. destruct (match_at_complete r Hprod g post Some Hg) as [rest H];
        [done|]. rewrite <- Hs in H. congruence.
    + injection Hs as -> Hs.
      destruct (IH pre Hs Hg) as (pre' & g' & post' & Hsearch & Hs' & Hg' & Hlen).
      exists (c' :: pre'), g', post'.
      repeat split; [exact Hsearch|simpl; by f_equal|done|simpl; lia].
Qed.

(** The match that [re.search] returns starts leftmost. *)
Lemma search_starts_leftmost (r : Re.regex) (s g : list N) :
  Re.productive r = true → Re.search r s = Some g →
  ∃ pre post, s = pre ++ g ++ post ∧ Re.matches r g
    ∧ ∀ pre' p post', s = pre' ++ p ++ post' → Re.matches r p →
                      (length pre ≤ length pre')%nat.
Proof.
  intros Hprod. induction s as [|c s IH]; rewrite search_unfold;
    destruct (Re.match_at r _ Some) as [rest|] eqn:Hm; try done.
  - apply match_at_Some_split in Hm as (p & Hs & Hp & Ht). rewrite Ht.
    intros [= <-]. exists [], rest. repeat split; [done..|]. simpl. lia.
  - apply match_at_Some_split in Hm as (p & Hs & Hp & Ht). rewrite Ht.
    intros [= <-]. exists [], rest. repeat split; [done..|]. simpl. lia.
  - intros H. apply IH in H as (pre & post & -> & Hg & Hleft).
    exists (c :: pre), post. repeat split; [done..|].
    intros pre' p post' Hs Hp. destruct pre' as [|c' pre'].
    + simpl in Hs. destruct (match_at_complete r Hprod p post' Some Hp) as [rest H];
        [done|]. rewrite <- Hs in H. congruence.
    + injection Hs as -> Hs. simpl. specialize (Hleft pre' p post' Hs Hp). lia.
Qed.

(** ** The shape of a price *)

Lemma matches_class_repeat (cls : N → bool) lo hi (p : list N) :
  Re.matches (Re.MaxRepeat lo hi (Re.In cls)) p
  ↔ Forall (λ c, cls c = true) p ∧ (lo ≤ length p)%nat ∧ Re.within hi (length p).
Proof.
  simpl. split.
  - intros (ps & -> & Hall & Hlo & Hhi).
    assert (Hlen : length (concat ps) = length ps ∧ Forall (λ c, cls c = true) (concat ps)).
    { clear Hlo Hhi. induction Hall as [|q ps (x & -> & Hx) _ [IH1 IH2]]; simpl.
      - by split.
      - split; [by rewrite IH1|by constructor]. }
    destruct Hlen as [-> Hcls]. done.
  - intros (Hall & Hlo & Hhi). exists (List.map (λ c, [c]) p).
    rewrite length_map. repeat split; [|  |done..].
    + clear. induction p as [|c p IH]; simpl; [done|]. by rewrite <- IH.
    + clear Hlo Hhi. induction Hall as [|c p Hc _ IH]; simpl; constructor; [|done].
      by exists c.
Qed.

Lemma matches_amount_inv (p : list N) :
  Re.matches amount p →
  (∃ d a, p = d :: a ∧ isdecimal d = true) ∧ (∃ a d, p = a ++ [d] ∧ isdecimal d = true).
Proof.
  unfold amount. intros (p1 & p2 & -> & H1 & H2).
  apply matches_class_repeat in H1 as (Hdigits & Hlen & _).
  destruct p1 as [|d ds]; [simpl in Hlen; lia|].
  inversion Hdigits as [|? ? Hd Hds]; subst. split; [by exists d, (ds ++ p2)|].
  destruct H2 as (ps & -> & Hfrac & _ & Hhi). simpl in Hhi.
  destruct ps as [|q [|q' ps]]; [| |simpl in Hhi; lia].
  - simpl. rewrite app_nil_r.
    destruct (@exists_last _ (d :: ds)) as (a & x & Hax); [done|].
    exists a, x. split; [done|]. rewrite Hax in Hdigits.
    apply Forall_app in Hdigits as [_ Hx]. by inversion Hx.
  - rewrite Forall_cons in Hfrac. destruct Hfrac as [Hq _].
    destruct Hq as (q1 & q2 & -> & Hq1 & Hq2). simpl in Hq1. subst q1.
    apply matches_class_repeat in Hq2 as (Hq2 & Hlo & Hup). simpl in Hup.
    destruct q2 as [|x [|y [|z q2]]]; simpl in Hlo, Hup; try lia.
    exists ((d :: ds) ++ [0x2E; x]), y. simpl. rewrite ?app_nil_r. split.
    + by rewrite <- app_assoc.
    + inversion Hq2 as [|? ? _ Hy]; subst. by inversion Hy.
Qed.

Lemma matches_amount_digit (d : N) : isdecimal d = true → Re.matches amount [d].
Proof.
  intros Hd. exists [d], []. repeat split.
  - apply matches_class_repeat. repeat split; [by constructor|simpl; lia].
  - exists []. repeat split; simpl; [constructor|lia..].
Qed.

Lemma matches_spaces (ws : list N) :
  Re.matches spaces ws ↔ Forall (λ c, isspace c = true) ws.
Proof.
  unfold spaces. rewrite matches_class_repeat. simpl. split; [by intros (H & _)|].
  intros H. repeat split; [done|lia].
Qed.

Lemma matches_currency_code (p : list N) :
  Re.matches currency_code p ↔ p ∈ currency_codes.
Proof.
  unfold currency_code, currency_codes. simpl. split.
  - intros [H|[H|[H|[H|H]]]];
      destruct H as (p1 & p2 & -> & -> & p3 & p4 & -> & -> & ->);
      apply list_elem_of_In; simpl; auto 10.
  - intros H. apply list_elem_of_In in H. simpl in H.
    destruct H as [<-|[<-|[<-|[<-|[<-|[]]]]]];
      [left|right; left|right; right; left|right; right; right; left|
       right; right; right; right];
      (eexists [_], [_; _]; repeat split; eexists [_], [_]; by repeat split).
Qed.

Lemma price_pattern_productive : Re.productive price_pattern = true.
Proof. reflexivity. Qed.

(** A match of the pattern has one of the three cores inside. *)
Lemma price_pattern_core (g : list N) :
  Re.matches price_pattern g → ∃ a p b, g = a ++ p ++ b ∧ price_core p.
Proof.
  unfold price_pattern.
  intros [(p1 & p2 & -> & (c & -> & Hc) & (ws & p3 & -> & Hws & Ham))
         |[(p1 & p2 & -> & Ham & (ws & p3 & -> & Hws & (c & -> & Hc)))
          |(p1 & p2 & -> & Ham & (ws & p3 & -> & Hws & Hcode))]].
  - apply matches_spaces in Hws.
    apply matches_amount_inv in Ham as [(d & a & -> & Hd) _].
    exists [], (c :: ws ++ [d]), a. split.
    + simpl. f_equal. rewrite <- app_assoc. done.
    + exists ws. split; [done|]. left. by exists c, d.
  - apply matches_spaces in Hws.
    apply matches_amount_inv in Ham as [_ (a & d & -> & Hd)].
    exists a, (d :: ws ++ [c]), []. split.
    + rewrite app_nil_r, <- app_assoc. done.
    + exists ws. split; [done|]. right. left. by exists d, c.
  - apply matches_spaces in Hws. apply matches_currency_code in Hcode.
    apply matches_amount_inv in Ham as [_ (a & d & -> & Hd)].
    exists a, (d :: ws ++ p3), []. split.
    + rewrite app_nil_r, <- app_assoc. done.
    + exists ws. split; [done|]. right. right. by exists d, p3.
Qed.

(** Each core is itself a match of the pattern. *)
Lemma price_core_matches (p : list N) : price_core p → Re.matches price_pattern p.
Proof.
  intros (ws & Hws & [(c & d & Hc & Hd & ->)|[(d & c & Hd & Hc & ->)
                                             |(d & code & Hd & Hcode & ->)]]);
    apply matches_spaces in Hws.
  - left. exists [c], (ws ++ [d]). repeat split; [by exists c|].
    exists ws, [d]. repeat split; [done|]. by apply matches_amount_digit.
  - right. left. exists [d], (ws ++ [c]). repeat split; [by apply matches_amount_digit|].
    exists ws, [c]. repeat split; [done|]. by exists c.
  - right. right. exists [d], (ws ++ code).
    repeat split; [by apply matches_amount_digit|].
    exists ws, code. repeat split; [done|]. by apply matches_currency_code.
Qed.

Lemma has_price_search (line : list N) :
  has_price line = true ↔ ∃ g, Re.search price_pattern line = Some g.
Proof.
  unfold has_price. destruct (Re.search price_pattern line) as [g|].
  - split; [by exists g|done].
  - split; [done|]. by intros [g H].
Qed.

(** X1: a line has a price exactly when it contains a currency symbol,
    white space or none, and a decimal digit, or a decimal digit, white
    space or none, and a currency symbol or one of the five codes. The
    fraction and the other digits of an amount play no part. *)
Theorem has_price_iff_core (line : list N) :
  has_price line = true ↔ ∃ pre p post, line = pre ++ p ++ post ∧ price_core p.
Proof.
  rewrite has_price_search. split.
  - intros [g Hg]. apply search_sound in Hg as (pre & post & -> & Hg).
    apply price_pattern_core in Hg as (a & p & b & -> & Hp).
    exists (pre ++ a), p, (b ++ post). split; [|done].
    by rewrite <- !app_assoc.
  - intros (pre & p & post & Hline & Hp). apply price_core_matches in Hp.
    destruct (search_complete price_pattern line pre p post
                price_pattern_productive Hline Hp) as (_ & g & _ & Hg & _).
    by exists g.
Qed.

(** X2: on a line that has a price, the price that is recorded is a part
    of the line, of two characters at least, that the pattern matches as a
    whole; no match of the pattern starts further to the left, and the
    price on its own has a price. *)
Theorem price_group_leftmost_match (line : list N) :
  has_price line = true →
  ∃ pre post,
    line = pre ++ price_group line ++ post
    ∧ Re.matches price_pattern (price_group line)
    ∧ (2 ≤ length (price_group line))%nat
    ∧ has_price (price_group line) = true
    ∧ ∀ pre' p post', line = pre' ++ p ++ post' → Re.matches price_pattern p →
                      (length pre ≤ length pre')%nat.
Proof.
  intros [g Hg]%has_price_search. unfold price_group. rewrite Hg. simpl.
  apply (search_starts_leftmost _ _ _ price_pattern_productive) in Hg
    as (pre & post & -> & Hm & Hleft).
  exists pre, post. repeat split; [done| | |done].
  - by apply matches_min_width in Hm.
  - apply has_price_search.
    destruct (search_complete price_pattern g [] g [] price_pattern_productive)
      as (_ & g' & _ & Hg' & _); [by rewrite app_nil_r|done|]. by exists g'.
Qed.

(** ** The records of the segmenter *)

Lemma open_ok_empty (lines : list (list N)) : open_ok lines ∅.
Proof.
  split; [|split]; intros k; rewrite lookup_empty; [by intros [? ?]|done..].
Qed.

Lemma open_ok_titled (lines : list (list N)) (cur : gmap string (list N)) :
  open_ok lines cur → cur ≠ ∅ → titled cur.
Proof.
  intros (Hkeys & _) Hne. apply map_choose in Hne as (key & v & Hv).
  destruct (Hkeys key) as [-> | ->]; [by eexists|left|right]; by eexists.
Qed.

Lemma open_keys_closed_fields (cur : gmap string (list N)) :
  open_keys cur → cur !! "price" = None ∧ cur !! "full_text" = None.
Proof.
  intros Hkeys. split.
  - destruct (cur !! "price") eqn:E; [|done].
    destruct (Hkeys "price") as [?|?]; [by eexists|done..].
  - destruct (cur !! "full_text") eqn:E; [|done].
    destruct (Hkeys "full_text") as [?|?]; [by eexists|done..].
Qed.

Lemma open_ok_item_ok (lines : list (list N)) (cur : gmap string (list N)) :
  open_ok lines cur → cur ≠ ∅ → item_ok lines cur.
Proof.
  intros Hok Hne. pose proof (open_ok_titled _ _ Hok Hne) as Ht.
  destruct Hok as (Hkeys & Hn & Hd).
  split; [|split; [done|split; [done|split; [done|]]]].
  - intros key Hk. destruct (Hkeys key Hk) as [-> | ->]; auto 6.
  - intros g Hg. apply open_keys_closed_fields in Hkeys as [Hp _]. congruence.
Qed.

Lemma open_ok_insert_name (lines : list (list N)) (cur : gmap string (list N))
    (line : list N) :
  open_ok lines cur → line ∈ lines → (3 ≤ length line ≤ 20)%nat →
  has_price line = false → open_ok lines (<["name" := line]> cur).
Proof.
  intros (Hkeys & Hn & Hd) Hin Hlen Hp. split; [|split].
  - intros key. rewrite lookup_insert. case_decide; [subst; auto|]. apply Hkeys.
  - intros v. rewrite lookup_insert_eq. by intros [= <-].
  - intros v. rewrite lookup_insert_ne by done. apply Hd.
Qed.

Lemma open_ok_insert_description (lines : list (list N)) (line : list N) :
  line ∈ lines → (20 < length line)%nat → has_price line = false →
  open_ok lines {["description" := line]}.
Proof.
  intros Hin Hlen Hp. split; [|split].
  - intros key. rewrite lookup_singleton. case_decide; [subst; auto|]. by intros [? ?].
  - intros v. by rewrite lookup_singleton_ne.
  - intros v. rewrite lookup_singleton_eq. by intros [= <-].
Qed.

Lemma close_item_ok (lines : list (list N)) (cur : gmap string (list N))
    (line g : list N) :
  open_ok lines cur → cur ≠ ∅ → line ∈ lines → (3 ≤ length line)%nat →
  Re.search price_pattern line = Some g →
  item_ok lines
    (<["full_text" := default [] (<["price" := g]> cur !! "name") ++ py " " ++ line]>
       (<["price" := g]> cur)).
Proof.
  intros Hok Hne Hin Hlen Hs. pose proof (open_ok_titled _ _ Hok Hne) as Ht.
  destruct Hok as (Hkeys & Hn & Hd).
  split; [|split; [|split; [|split]]].
  - intros key. rewrite !lookup_insert. repeat case_decide; subst; try solve [auto 6].
    intros Hk. destruct (Hkeys key Hk) as [-> | ->]; auto 6.
  - unfold titled. by rewrite !lookup_insert_ne.
  - intros v. rewrite !lookup_insert_ne by done. apply Hn.
  - intros v. rewrite !lookup_insert_ne by done. apply Hd.
  - intros v. rewrite lookup_insert_ne by done. rewrite lookup_insert_eq.
    intros [= <-]. exists line. split; [done|]. split; [done|]. split; [done|].
    by rewrite lookup_insert_eq, !lookup_insert_ne.
Qed.

Lemma step_records_inv (lines : list (list N)) st (line : list N) :
  line ∈ lines → records_inv lines st → records_inv lines (step st line).
Proof.
  destruct st as [items cur]. intros Hin (Hitems & Hcur). unfold step.
  destruct (length line <? 3)%nat eqn:Hlen; [by split|].
  apply Nat.ltb_ge in Hlen.
  destruct (has_price line) eqn:Hp; simpl.
  - destruct (truthy cur) eqn:Ht; simpl.
    + split; simpl; [|apply open_ok_empty].
      apply Forall_app. split; [done|]. constructor; [|constructor].
      apply truthy_true in Ht. unfold price_group.
      apply has_price_search in Hp as [g Hg]. rewrite Hg. simpl.
      by apply close_item_ok.
    + by rewrite andb_false_r.
  - rewrite andb_true_r.
    destruct (20 <? length line)%nat eqn:Hlong; simpl.
    + apply Nat.ltb_lt in Hlong. destruct (truthy cur) eqn:Ht; simpl; [by split|].
      split; [done|]. by apply open_ok_insert_description.
    + apply Nat.ltb_ge in Hlong. destruct (truthy cur) eqn:Ht; split; try done; simpl.
      * apply open_ok_insert_name; [done..|lia|done].
      * rewrite <- insert_empty.
        apply open_ok_insert_name; [apply open_ok_empty|done|lia|done].
Qed.

Lemma fold_step_records_inv (all lines : list (list N)) st :
  (∀ line, line ∈ lines → line ∈ all) →
  records_inv all st → records_inv all (fold_left step lines st).
Proof.
  revert st. induction lines as [|line lines IH]; intros st Hsub Hst; [done|].
  simpl. apply IH.
  - intros l Hl. apply Hsub. by right.
  - apply step_records_inv; [|done]. apply Hsub. by left.
Qed.

Lemma extract_menu_items_ok (text : list N) :
  Forall (item_ok (clean_lines text)) (extract_menu_items text).
Proof.
  unfold extract_menu_items.
  pose proof (fold_step_records_inv (clean_lines text) (clean_lines text) ([], ∅)) as H.
  destruct (fold_left step (clean_lines text) ([], ∅)) as [items cur].
  destruct H as [Hitems Hcur]; [done|by split; [constructor|apply open_ok_empty]|].
  simpl in *. destruct (truthy cur) eqn:Ht; [|done].
  apply Forall_app. split; [done|]. constructor; [|constructor].
  apply open_ok_item_ok; [done|]. by apply truthy_true.
Qed.

(** X3: an item of the output has no key besides "name", "description",
    "price" and "full_text", and has a name or a description. *)
Theorem items_keys_and_title (text : list N) :
  Forall (λ item, own_keys item ∧ titled item) (extract_menu_items text).
Proof.
  eapply Forall_impl; [apply extract_menu_items_ok|].
  intros item (Hk & Ht & _). by split.
Qed.

(** X4: the name of an item is a stripped line of the text of 3 to 20
    characters without a price; its description is a stripped line of more
    than 20 characters without a price. *)
Theorem items_fields_from_lines (text : list N) :
  Forall (λ item, name_line (clean_lines text) item
                  ∧ description_line (clean_lines text) item)
    (extract_menu_items text).
Proof.
  eapply Forall_impl; [apply extract_menu_items_ok|].
  intros item (_ & _ & Hn & Hd & _). by split.
Qed.

(** X5: the price of an item is what [re.search] finds in a stripped line
    of the text, a part of that line; the full text of the item is its
    name (nothing when it has none), a space and that line. *)
Theorem items_price_from_line (text : list N) :
  Forall (λ item : gmap string (list N),
            ∀ g, item !! "price" = Some g →
                 ∃ line pre post,
                   line ∈ clean_lines text
                   ∧ line = pre ++ g ++ post
                   ∧ price_group line = g
                   ∧ item !! "full_text"
                     = Some (default [] (item !! "name") ++ py " " ++ line))
    (extract_menu_items text).
Proof.
  eapply Forall_impl; [apply extract_menu_items_ok|].
  intros item (_ & _ & _ & _ & Hp) g Hg.
  destruct (Hp g Hg) as (line & Hin & _ & Hs & Hf).
  destruct (search_sound _ _ _ Hs) as (pre & post & Hline & _).
  exists line, pre, post. repeat split; [done..| |done].
  unfold price_group. by rewrite Hs.
Qed.

(** ** When the segmenter returns nothing, and what it depends on *)

Lemma step_idle (items : list (gmap string (list N))) (line : list N) :
  idle_line line = true → step (items, ∅) line = (items, ∅).
Proof.
  unfold idle_line, step. rewrite truthy_empty.
  destruct (length line <? 3)%nat; [done|]. simpl. intros ->.
  by destruct (20 <? length line)%nat.
Qed.

Lemma step_starts st (line : list N) : idle_line line = false → started (step st line).
Proof.
  destruct st as [items cur]. unfold idle_line, step.
  destruct (length line <? 3)%nat; [done|]. simpl. intros ->. simpl.
  rewrite andb_true_r.
  destruct (20 <? length line)%nat; simpl; destruct (truthy cur) eqn:Ht; simpl; right;
    simpl; try apply insert_non_empty; by apply truthy_true.
Qed.

Lemma step_started st (line : list N) : started st → started (step st line).
Proof.
  destruct st as [items cur]. intros Hst. unfold step.
  destruct (length line <? 3)%nat; [done|].
  destruct (has_price line && truthy cur).
  { left. simpl. intros H. by apply app_eq_nil in H as [_ ?]. }
  destruct Hst as [Hitems|Hcur]; simpl in *.
  { destruct ((20 <? length line)%nat && negb (has_price line) && negb (truthy cur));
      [by left|].
    destruct (negb (has_price line)
              && negb ((20 <? length line)%nat && negb (has_price line)));
      [|by left]. destruct (truthy cur); by left. }
  apply truthy_true in Hcur. rewrite Hcur. simpl. rewrite andb_false_r.
  destruct (negb (has_price line)
            && negb ((20 <? length line)%nat && negb (has_price line))).
  - right. simpl. apply insert_non_empty.
  - right. simpl. by apply truthy_true.
Qed.

Lemma fold_step_started (lines : list (list N)) st :
  started st → started (fold_left step lines st).
Proof.
  revert st. induction lines as [|line lines IH]; intros st Hst; [done|].
  simpl. by apply IH, step_started.
Qed.

(** X6: the segmenter returns no item exactly when every stripped line of
    the text is shorter than 3 characters or has a price; one line of 3
    characters or more without a price is enough for an item. *)
Theorem no_items_iff_idle_lines (text : list N) :
  extract_menu_items text = []
  ↔ Forall (λ line, idle_line line = true) (clean_lines text).
Proof.
  unfold extract_menu_items.
  induction (clean_lines text) as [|line lines IH]; cbn [fold_left].
  - rewrite truthy_empty. split; [constructor|done].
  - destruct (idle_line line) eqn:Hidle.
    + rewrite step_idle by done. rewrite IH. split.
      * by constructor.
      * by intros [_ H]%Forall_cons.
    + split; [|by intros [H _]%Forall_cons; congruence].
      pose proof (fold_step_started lines _ (step_starts ([], ∅) line Hidle)) as Hst.
      destruct (fold_left step lines (step ([], ∅) line)) as [items cur].
      destruct Hst as [Hitems|Hcur]; simpl in *.
      * destruct (truthy cur); [|done]. intros H. by apply app_eq_nil in H as [? _].
      * apply truthy_true in Hcur. rewrite Hcur. intros H.
        by apply app_eq_nil in H as [_ ?].
Qed.

Lemma long_stripped_clean_lines (text : list N) :
  List.filter (λ l, negb (length l <? 3)%nat) (clean_lines text)
  = long_stripped_lines text.
Proof.
  unfold clean_lines, long_stripped_lines. rewrite long_clean_lines.
  induction (split newline text) as [|l ls IH]; simpl; [done|].
  unfold long_line at 1. destruct (negb (length (strip l) <? 3)%nat); simpl; by rewrite IH.
Qed.

(** X7: the items depend on the text only through its stripped lines of 3
    characters or more: indentation, trailing white space, carriage
    returns and lines that are blank or too short change nothing. *)
Theorem items_depend_on_long_stripped_lines (text1 text2 : list N) :
  long_stripped_lines text1 = long_stripped_lines text2 →
  extract_menu_items text1 = extract_menu_items text2.
Proof.
  intros Heq. unfold extract_menu_items.
  rewrite (fold_step_skips_short (clean_lines text1)).
  rewrite (fold_step_skips_short (clean_lines text2)).
  by rewrite !long_stripped_clean_lines, Heq.
Qed.

(** ** [allowed_file] *)

Lemma existsb_dot (s : list N) : existsb (N.eqb dot) s = true ↔ dot ∈ s.
Proof.
  rewrite existsb_exists. split.
  - intros (x & Hin & Hx). apply N.eqb_eq in Hx as <-. by apply list_elem_of_In.
  - intros Hin. exists dot. split; [by apply list_elem_of_In|apply N.eqb_refl].
Qed.

Lemma rsplit1_no_sep sep (s : list N) : sep ∉ s → rsplit1 sep s = [s].
Proof.
  induction s as [|c s IH]; intros Hs; simpl; [done|].
  apply not_elem_of_cons in Hs as [Hc Hs]. rewrite IH by done.
  destruct (c =? sep) eqn:E; [|done]. apply N.eqb_eq in E. congruence.
Qed.

Lemma rsplit1_last sep (stem ext : list N) :
  sep ∉ ext → rsplit1 sep (stem ++ sep :: ext) = [stem; ext].
Proof.
  intros Hext. induction stem as [|c stem IH]; simpl.
  - by rewrite rsplit1_no_sep, N.eqb_refl.
  - by rewrite IH.
Qed.

Lemma elem_of_split_last sep (s : list N) :
  sep ∈ s → ∃ stem ext, s = stem ++ (sep :: ext) ∧ sep ∉ ext.
Proof.
  induction s as [|c s IH]; intros Hs; [by apply elem_of_nil in Hs|].
  destruct (decide (sep ∈ s)) as [Hin|Hout].
  - destruct (IH Hin) as (stem & ext & -> & Hext). by exists (c :: stem), ext.
  - apply elem_of_cons in Hs as [->|?]; [|done]. by exists [], s.
Qed.

Lemma allowed_file_extension (stem ext : list N) :
  dot ∉ ext →
  allowed_file (stem ++ dot :: ext)
  = Some (bool_decide (lower ext ∈ ALLOWED_EXTENSIONS)).
Proof.
  intros Hext. unfold allowed_file.
  assert (existsb (N.eqb dot) (stem ++ dot :: ext) = true) as ->.
  { apply existsb_dot. apply elem_of_app. right. by left. }
  by rewrite rsplit1_last.
Qed.

(** X8: [allowed_file] never raises: the subscript [[1]] is only reached
    when the name has a dot, and then the split has two parts. A name
    without a dot is refused. *)
Theorem allowed_file_total (filename : list N) :
  ∃ b, allowed_file filename = Some b ∧ (dot ∉ filename → b = false).
Proof.
  destruct (decide (dot ∈ filename)) as [Hin|Hout].
  - apply elem_of_split_last in Hin as (stem & ext & -> & Hext).
    rewrite allowed_file_extension by done. eexists. split; [done|].
    intros Hno. exfalso. apply Hno. apply elem_of_app. right. by left.
  - exists false. split; [|done]. unfold allowed_file.
    destruct (existsb (N.eqb dot) filename) eqn:E; [|done].
    by apply existsb_dot in E.
Qed.

(** X9: a file name is accepted exactly when what follows its last dot
    is, in lower case, one of png, jpg, jpeg, gif, bmp and tiff. *)
Theorem allowed_file_iff_last_extension (filename : list N) :
  allowed_file filename = Some true
  ↔ ∃ stem ext, filename = stem ++ dot :: ext ∧ (dot ∉ ext)
                ∧ lower ext ∈ ALLOWED_EXTENSIONS.
Proof.
  split.
  - intros Hok. destruct (decide (dot ∈ filename)) as [Hin|Hout].
    + apply elem_of_split_last in Hin as (stem & ext & -> & Hext).
      rewrite allowed_file_extension in Hok by done. injection Hok as Hok.
      apply bool_decide_eq_true in Hok. by exists stem, ext.
    + unfold allowed_file in Hok.
      destruct (existsb (N.eqb dot) filename) eqn:E; [|done].
      by apply existsb_dot in E.
  - intros (stem & ext & -> & Hext & Hin).
    rewrite allowed_file_extension by done. by rewrite bool_decide_eq_true_2.
Qed.

(** X10: the answer depends on the extension alone, and not on the case
    of its letters when these are ASCII: two names whose last extensions
    are the same up to case are both accepted or both refused. *)
Theorem allowed_file_ignores_stem_and_case (stem1 stem2 ext1 ext2 : list N) :
  dot ∉ ext1 → dot ∉ ext2 →
  forallb (λ c, c <? 128) ext1 = true → forallb (λ c, c <? 128) ext2 = true →
  List.map ascii_lower ext1 = List.map ascii_lower ext2 →
  allowed_file (stem1 ++ dot :: ext1) = allowed_file (stem2 ++ dot :: ext2).
Proof.
  intros H1 H2 Ha1 Ha2 Heq. rewrite !allowed_file_extension by done.
  unfold lower. by rewrite Ha1, Ha2, Heq.
Qed.

(** ** The confidence and the answer of the handler *)

(** ** The division of two [int]s *)

Section Division.

Local Open Scope Z_scope.

Lemma round_half_even_near (num den : Z) :
  0 < den →
  2 * num - den ≤ 2 * (round_half_even num den * den) ≤ 2 * num + den.
Proof.
  intros Hden. unfold round_half_even.
  pose proof (Z.div_mod num den ltac:(lia)) as Hdm.
  pose proof (Z.mod_pos_bound num den Hden) as Hr.
  destruct (2 * (num mod den) <? den) eqn:H1; [apply Z.ltb_lt in H1; nia|].
  apply Z.ltb_ge in H1.
  destruct (den <? 2 * (num mod den)) eqn:H2; [apply Z.ltb_lt in H2; nia|].
  apply Z.ltb_ge in H2. destruct (Z.even (num / den)); nia.
Qed.

Lemma round_half_even_le (num den K : Z) :
  0 < den → num ≤ K * den → round_half_even num den ≤ K.
Proof.
  intros Hden HK. unfold round_half_even.
  pose proof (Z.div_mod num den ltac:(lia)) as Hdm.
  pose proof (Z.mod_pos_bound num den Hden) as Hr.
  assert (num / den ≤ K) by nia.
  assert (0 < num mod den → num / den + 1 ≤ K) by nia.
  destruct (2 * (num mod den) <? den) eqn:H1; [done|]. apply Z.ltb_ge in H1.
  destruct (den <? 2 * (num mod den)); [lia|]. destruct (Z.even (num / den)); lia.
Qed.

Lemma round_half_even_ge (num den K : Z) :
  0 < den → K * den ≤ num → K ≤ round_half_even num den.
Proof.
  intros Hden HK. unfold round_half_even.
  pose proof (Z.div_mod num den ltac:(lia)) as Hdm.
  pose proof (Z.mod_pos_bound num den Hden) as Hr.
  assert (K ≤ num / den) by nia.
  destruct (2 * (num mod den) <? den); [done|].
  destruct (den <? 2 * (num mod den)); [lia|]. destruct (Z.even (num / den)); lia.
Qed.

(** The exponent of a quotient that is 1 at least. *)
Lemma exponent_bounds (a b : Z) :
  0 < b ≤ a →
  0 ≤ exponent a b ∧ b * 2 ^ exponent a b ≤ a < b * 2 ^ (exponent a b + 1).
Proof.
  intros [Hb Hab]. unfold exponent.
  assert ((b <=? a) = true) as -> by (by apply Z.leb_le).
  assert (Hq : 0 < a / b) by (apply Z.div_str_pos; lia).
  pose proof (Z.log2_spec (a / b) Hq) as [Hlo Hhi].
  pose proof (Z.div_mod a b ltac:(lia)) as Hdm.
  pose proof (Z.mod_pos_bound a b Hb) as Hr.
  split; [apply Z.log2_nonneg|]. rewrite <- Z.add_1_r in Hhi. nia.
Qed.

(** The scaling that brings the quotient between 2^52 and 2^53. *)
Lemma scaling (a b : Z) :
  0 < b ≤ a →
  let s := Z.max (exponent a b - 52) (-1074) in
  let t := Z.max 0 (- s) in
  let u := Z.max 0 s in
  0 ≤ t ∧ 0 ≤ u ∧ (t = 0 ∨ u = 0) ∧ exponent a b + t = 52 + u
  ∧ 0 < 2 ^ t ∧ 0 < b * 2 ^ u
  ∧ 2 ^ 52 * (b * 2 ^ u) ≤ a * 2 ^ t < 2 ^ 53 * (b * 2 ^ u).
Proof.
  intros Hab. destruct (exponent_bounds a b Hab) as (HE & Hlo & Hhi).
  intros s t u. assert (Hs : s = exponent a b - 52) by lia.
  assert (Ht : 0 ≤ t) by lia. assert (Hu : 0 ≤ u) by lia.
  assert (Hsum : exponent a b + t = 52 + u) by lia.
  assert (H2t : 0 < 2 ^ t) by (apply Z.pow_pos_nonneg; lia).
  assert (H2u : 0 < 2 ^ u) by (apply Z.pow_pos_nonneg; lia).
  repeat split; try lia; try nia.
  - assert (2 ^ 52 * 2 ^ u = 2 ^ exponent a b * 2 ^ t) as Heq.
    { rewrite <- !Z.pow_add_r by lia. f_equal. lia. }
    replace (2 ^ 52 * (b * 2 ^ u)) with (b * (2 ^ 52 * 2 ^ u)) by ring.
    rewrite Heq. nia.
  - assert (2 ^ 53 * 2 ^ u = 2 ^ (exponent a b + 1) * 2 ^ t) as Heq.
    { rewrite <- !Z.pow_add_r by lia. f_equal. lia. }
    replace (2 ^ 53 * (b * 2 ^ u)) with (b * (2 ^ 53 * 2 ^ u)) by ring.
    rewrite Heq. nia.
Qed.

Lemma true_div_pos (a b : Z) : 0 < a → 0 < b → true_div a b = pos_div a b.
Proof.
  intros Ha Hb. unfold true_div.
  assert ((b =? 0) = false) as -> by (apply Z.eqb_neq; lia).
  assert ((a =? 0) = false) as -> by (apply Z.eqb_neq; lia).
  rewrite !Z.abs_eq by lia. rewrite !Z.sgn_pos by lia. simpl.
  by destruct (pos_div a b).
Qed.

(** The shape of the quotient of [a] by [b], for [b ≤ a]. *)
Lemma pos_div_shape (a b : Z) (v : Q) :
  0 < b ≤ a → pos_div a b = Some v →
  ∃ m t u,
    v = Qmake (m * 2 ^ u) (Z.to_pos (2 ^ t))
    ∧ 0 ≤ t ∧ 0 ≤ u ∧ (t = 0 ∨ u = 0) ∧ exponent a b + t = 52 + u
    ∧ 0 < 2 ^ t ∧ 0 < b * 2 ^ u
    ∧ 2 ^ 52 * (b * 2 ^ u) ≤ a * 2 ^ t < 2 ^ 53 * (b * 2 ^ u)
    ∧ m = round_half_even (a * 2 ^ t) (b * 2 ^ u)
    ∧ 2 ^ 52 ≤ m ≤ 2 ^ 53
    ∧ 2 * (a * 2 ^ t) - b * 2 ^ u ≤ 2 * (m * (b * 2 ^ u)) ≤ 2 * (a * 2 ^ t) + b * 2 ^ u.
Proof.
  intros Hab Hv. pose proof (scaling a b Hab) as Hsc. unfold pos_div in Hv.
  cbv zeta in Hsc, Hv.
  set (t := Z.max 0 (- Z.max (exponent a b - 52) (-1074))) in *.
  set (u := Z.max 0 (Z.max (exponent a b - 52) (-1074))) in *.
  set (m := round_half_even (a * 2 ^ t) (b * 2 ^ u)) in *.
  destruct Hsc as (Ht & Hu & Htu & Hsum & H2t & Hden & Hlo & Hhi).
  destruct (2 ^ 1024 * 2 ^ t <=? m * 2 ^ u); [done|]. injection Hv as <-.
  exists m, t, u. repeat split; try done.
  - by apply round_half_even_ge.
  - apply round_half_even_le; [done|]. lia.
  - by apply round_half_even_near.
  - by apply round_half_even_near.
Qed.

Local Open Scope Q_scope.

(** The quotient is the exact one up to one part in 2^53. *)
Lemma pos_div_error (a b : Z) (v : Q) :
  (0 < b ≤ a)%Z → pos_div a b = Some v →
  inject_Z (2 ^ 53 - 1) * (a # Z.to_pos b) <= inject_Z (2 ^ 53) * v
  ∧ inject_Z (2 ^ 53) * v <= inject_Z (2 ^ 53 + 1) * (a # Z.to_pos b).
Proof.
  intros Hab Hv.
  destruct (pos_div_shape a b v Hab Hv)
    as (m & t & u & -> & Ht & Hu & Htu & Hsum & H2t & Hden & [Hlo Hhi] & _ & Hm & Hnear).
  unfold Qle. cbn [Qmult Qnum Qden inject_Z]. rewrite !Pos.mul_1_l.
  rewrite !Z2Pos.id by lia.
  replace ((2 ^ 53 - 1) * a * 2 ^ t)%Z with ((2 ^ 53 - 1) * (a * 2 ^ t))%Z by ring.
  replace (2 ^ 53 * (m * 2 ^ u) * b)%Z with (2 ^ 53 * (m * (b * 2 ^ u)))%Z by ring.
  replace ((2 ^ 53 + 1) * a * 2 ^ t)%Z with ((2 ^ 53 + 1) * (a * 2 ^ t))%Z by ring.
  clear Hv Hden Hhi Hm Hsum.
  generalize dependent (a * 2 ^ t)%Z. intros X. generalize (m * (b * 2 ^ u))%Z.
  generalize (b * 2 ^ u)%Z. intros Y W Hlo Hnear.
  change (2 ^ 52)%Z with 4503599627370496%Z in *.
  change (2 ^ 53)%Z with 9007199254740992%Z in *. clear -Hlo Hnear. lia.
Qed.

Lemma pos_div_ge_1 (a b : Z) (v : Q) :
  (0 < b ≤ a)%Z → pos_div a b = Some v → 1 <= v.
Proof.
  intros Hab Hv. destruct (exponent_bounds a b Hab) as (HE & _).
  destruct (pos_div_shape a b v Hab Hv)
    as (m & t & u & -> & Ht & Hu & Htu & Hsum & H2t & Hden & _ & _ & [Hm _] & _).
  unfold Qle. cbn [Qnum Qden]. rewrite Z2Pos.id by lia.
  assert (2 ^ 52 * 2 ^ u = 2 ^ exponent a b * 2 ^ t)%Z as Heq.
  { rewrite <- !Z.pow_add_r by lia. f_equal. lia. }
  assert (1 ≤ 2 ^ exponent a b)%Z by (apply (Z.pow_le_mono_r 2 0); lia).
  assert (0 < 2 ^ u)%Z by (apply Z.pow_pos_nonneg; lia). nia.
Qed.

Lemma pos_div_le (a b B : Z) (v : Q) :
  (0 < b ≤ a)%Z → (a ≤ B * b)%Z → (B < 2 ^ 53)%Z →
  pos_div a b = Some v → v <= inject_Z B.
Proof.
  intros Hab HB HB53 Hv. destruct (exponent_bounds a b Hab) as (HE & HElo & _).
  destruct (pos_div_shape a b v Hab Hv)
    as (m & t & u & -> & Ht & Hu & Htu & Hsum & H2t & Hden & _ & Hm & _ & _).
  assert (HE53 : (exponent a b < 53)%Z).
  { apply (Z.pow_lt_mono_r_iff 2); [lia..|]. nia. }
  assert (u = 0)%Z as -> by lia.
  rewrite Z.pow_0_r, Z.mul_1_r in *.
  assert (m ≤ B * 2 ^ t)%Z by (subst m; apply round_half_even_le; [lia|nia]).
  unfold Qle. cbn [Qnum Qden inject_Z]. rewrite Z2Pos.id by lia. lia.
Qed.

Lemma pos_div_exact (a b K : Z) :
  (0 < b)%Z → (1 ≤ K < 2 ^ 53)%Z → a = (K * b)%Z →
  ∃ v, pos_div a b = Some v ∧ v == inject_Z K.
Proof.
  intros Hb HK ->. assert (Hab : (0 < b ≤ K * b)%Z) by nia.
  pose proof (scaling (K * b) b Hab) as Hsc.
  destruct (exponent_bounds (K * b) b Hab) as (HE & HElo & _).
  assert (HE53 : (exponent (K * b) b < 53)%Z).
  { apply (Z.pow_lt_mono_r_iff 2); [lia..|]. nia. }
  unfold pos_div. cbv zeta in *.
  set (t := Z.max 0 (- Z.max (exponent (K * b) b - 52) (-1074))) in *.
  set (u := Z.max 0 (Z.max (exponent (K * b) b - 52) (-1074))) in *.
  destruct Hsc as (Ht & Hu & Htu & Hsum & H2t & Hden & Hlo & Hhi).
  assert (u = 0)%Z as Hu0 by lia. rewrite Hu0 in *.
  rewrite Z.pow_0_r, !Z.mul_1_r in *.
  assert (Hm : round_half_even (K * b * 2 ^ t) b = (K * 2 ^ t)%Z).
  { apply Z.le_antisymm; [apply round_half_even_le|apply round_half_even_ge]; lia. }
  rewrite Hm.
  assert ((2 ^ 1024 * 2 ^ t <=? K * 2 ^ t)%Z = false) as ->.
  { apply Z.leb_gt. assert (2 ^ 53 < 2 ^ 1024)%Z by (apply Z.pow_lt_mono_r; lia). nia. }
  eexists. split; [done|]. unfold Qeq. cbn [Qnum Qden inject_Z].
  rewrite Z2Pos.id by lia. lia.
Qed.

Lemma pos_div_defined (a b : Z) :
  (0 < b ≤ a)%Z → (a < b * 2 ^ 1023)%Z → is_Some (pos_div a b).
Proof.
  intros Hab Hbig. pose proof (scaling a b Hab) as Hsc.
  destruct (exponent_bounds a b Hab) as (HE & HElo & _).
  assert (HE1023 : (exponent a b < 1023)%Z).
  { apply (Z.pow_lt_mono_r_iff 2); [lia..|]. nia. }
  unfold pos_div. cbv zeta in *.
  set (t := Z.max 0 (- Z.max (exponent a b - 52) (-1074))) in *.
  set (u := Z.max 0 (Z.max (exponent a b - 52) (-1074))) in *.
  set (m := round_half_even (a * 2 ^ t) (b * 2 ^ u)) in *.
  destruct Hsc as (Ht & Hu & Htu & Hsum & H2t & Hden & Hlo & Hhi).
  assert (Hm : (m ≤ 2 ^ 53)%Z) by (apply round_half_even_le; lia).
  assert ((2 ^ 1024 * 2 ^ t <=? m * 2 ^ u)%Z = false) as ->; [|by eexists].
  apply Z.leb_gt.
  assert (0 < 2 ^ u)%Z by (apply Z.pow_pos_nonneg; lia).
  assert (2 ^ 53 * 2 ^ u = 2 ^ (exponent a b + 1) * 2 ^ t)%Z as Heq.
  { rewrite <- !Z.pow_add_r by lia. f_equal. lia. }
  assert (2 ^ (exponent a b + 1) < 2 ^ 1024)%Z by (apply Z.pow_lt_mono_r; lia).
  nia.
Qed.

End Division.

Lemma positive_total_bounds (conf : list Z) (B : Z) :
  (∀ c, c ∈ conf → (c ≤ B)%Z) →
  (Z.of_nat (positive_count conf) ≤ positive_total conf
   ∧ positive_total conf ≤ B * Z.of_nat (positive_count conf))%Z.
Proof.
  induction conf as [|c conf IH]; intros HB; simpl; [lia|].
  destruct IH as [IH1 IH2]; [intros x Hx; apply HB; by right|].
  specialize (HB c ltac:(by left)).
  destruct (0 <? c)%Z eqn:Hc; [|done]. apply Z.ltb_lt in Hc. lia.
Qed.

Lemma int_scores_positive (conf : list reported) (scores : list Z) :
  int_scores conf = Some scores → positive_count scores ≠ 0%nat →
  (0 < Z.of_nat (positive_count scores) ≤ positive_total scores)%Z
  ∧ avg_confidence conf
    = pos_div (positive_total scores) (Z.of_nat (positive_count scores)).
Proof.
  intros Hint Hn.
  assert (Hb : (0 < Z.of_nat (positive_count scores) ≤ positive_total scores)%Z).
  { split; [lia|].
    apply (positive_total_bounds scores (Z.max 0 (fold_right Z.max 0%Z scores))).
    clear. intros c Hc. induction scores as [|x scores IH]; [by apply elem_of_nil in Hc|].
    simpl. apply elem_of_cons in Hc as [-> |Hc]; [lia|]. specialize (IH Hc). lia. }
  split; [done|]. unfold avg_confidence. rewrite Hint.
  rewrite <- (length_filter_positive scores), <- (py_sum_filter scores) in *.
  destruct (List.filter (λ c, 0 <? c)%Z scores) eqn:E; [done|].
  apply true_div_pos; lia.
Qed.

Lemma int_scores_none_positive (conf : list reported) (scores : list Z) :
  int_scores conf = Some scores → positive_count scores = 0%nat →
  avg_confidence conf = Some 0%Q.
Proof.
  intros Hint H0. unfold avg_confidence. rewrite Hint.
  rewrite <- (length_filter_positive scores) in H0.
  by destruct (List.filter (λ c, 0 <? c)%Z scores).
Qed.

(** C4, as the code has it: the scores are read through [int], which cuts
    a fraction off; when none of them is above 0 the average confidence is
    0; otherwise it is the quotient of their sum by their number as a
    double: the arithmetic mean up to one part in 2^53, and the mean itself
    when this is an integer below 2^53. It exists as long as the sum is
    below 2^1023; a score that [int] cannot read leaves no average. *)
Theorem avg_confidence_rounded_mean (conf : list reported) :
  (int_scores conf = None → avg_confidence conf = None)
  ∧ ∀ scores, int_scores conf = Some scores →
      (positive_count scores = 0%nat → avg_confidence conf = Some 0%Q)
      ∧ (positive_count scores ≠ 0%nat →
         (∀ v, avg_confidence conf = Some v → rounds_to v (mean_of_positive scores))
         ∧ ((positive_total scores < 2 ^ 1023)%Z → is_Some (avg_confidence conf))
         ∧ (∀ K, (K < 2 ^ 53)%Z →
                 positive_total scores = (K * Z.of_nat (positive_count scores))%Z →
                 ∃ v, avg_confidence conf = Some v ∧ (v == inject_Z K)%Q)).
Proof.
  split; [intros Hnone; unfold avg_confidence; by rewrite Hnone|].
  intros scores Hint. split; [by apply int_scores_none_positive|].
  intros Hn. destruct (int_scores_positive conf scores Hint Hn) as [Hb ->].
  split; [|split].
  - intros v Hv. by apply pos_div_error.
  - intros Hbig. apply pos_div_defined; [done|].
    assert (1 ≤ 2 ^ 1023)%Z by (apply (Z.pow_le_mono_r 2 0); lia). nia.
  - intros K HK Htotal. apply pos_div_exact; [lia| |done]. nia.
Qed.

(** X11: an average confidence is never negative; it is 0 or 1 at least;
    and it is at most any integer below 2^53 that bounds the scores as
    [int] reads them: between 0 and 100 for an engine that reports scores
    of 100 at most. *)
Theorem avg_confidence_bounds (conf : list reported) (v : Q) :
  avg_confidence conf = Some v →
  (0 <= v)%Q
  ∧ (v = 0%Q ∨ (1 <= v)%Q)
  ∧ ∀ scores B, int_scores conf = Some scores → (0 ≤ B < 2 ^ 53)%Z →
                (∀ c, c ∈ scores → (c ≤ B)%Z) → (v <= inject_Z B)%Q.
Proof.
  intros Hv. destruct (int_scores conf) as [scores|] eqn:Hint;
    [|unfold avg_confidence in Hv; by rewrite Hint in Hv].
  destruct (decide (positive_count scores = 0%nat)) as [H0|Hn].
  - rewrite (int_scores_none_positive conf scores Hint H0) in Hv.
    injection Hv as <-. split; [done|]. split; [by left|].
    intros scores' B _ HB _. change 0%Q with (inject_Z 0). rewrite <- Zle_Qle. lia.
  - destruct (int_scores_positive conf scores Hint Hn) as [Hb Havg].
    rewrite Havg in Hv. pose proof (pos_div_ge_1 _ _ v Hb Hv) as Hone.
    split; [by eapply Qle_trans; [|exact Hone]|]. split; [by right|].
    intros scores' B [= <-] HB Hall. apply (pos_div_le _ _ B v Hb); [|lia|done].
    by apply positive_total_bounds.
Qed.

Lemma translate_menu_same_fields (target_lang detected_lang : list N)
    (items : list (gmap string (list N))) (w : world) :
  Forall2 same_fields items (translate_menu target_lang detected_lang items w).1.
Proof.
  unfold translate_menu.
  destruct (bool_decide (target_lang ≠ py "en")
            && bool_decide (detected_lang ≠ target_lang)).
  - apply for_each_Forall2. intros item w'. apply translate_item_frame.
  - simpl. apply Forall2_same_length_lookup_2; [done|].
    intros i x y Hx Hy. assert (x = y) as -> by congruence. by intros key _ _.
Qed.

Lemma ocr_select_kept (img : image) :
  strip (ocr_select img).1 ≠ [] →
  (0 < (ocr_select img).2)%Q
  ∧ ∃ config, config ∈ ocr_configs ∧ candidate img config = Some (ocr_select img).
Proof.
  intros Hne. unfold ocr_select in *.
  destruct (select_loop_spec (List.map (candidate img) ocr_configs))
    as [[Hinit _]|[Hpos [i (Hi & _)]]].
  - by rewrite Hinit in Hne.
  - split; [done|]. apply list_elem_of_lookup_2 in Hi.
    apply list_elem_of_In, in_map_iff in Hi as (config & Hc & Hin).
    exists config. split; [by apply list_elem_of_In|done].
Qed.

(** X12: a success answer is coherent: its text is what one of the three
    profiles read, with that profile's average confidence, which is above
    0; the text is not blank; the detected language is the client's answer
    for that text, or "unknown" when the client raises; the count is the
    number of items; and the items are those of the segmenter, in order,
    with at most the translated keys added. *)
Theorem success_response_coherent
    (img : image) (target_lang : list N) (w : world) (body : ocr_result) :
  (ocr_endpoint img target_lang w).1 = Json body →
  success body = true
  ∧ target_language body = target_lang
  ∧ (∃ config, config ∈ ocr_configs
               ∧ candidate img config = Some (raw_text body, confidence body))
  ∧ (0 < confidence body)%Q
  ∧ strip (raw_text body) ≠ []
  ∧ detected_language body
    = default (py "unknown") (backend_detect (raw_text body) (client w)).1
  ∧ total_items body = length (menu_items body)
  ∧ Forall2 same_fields (extract_menu_items (raw_text body)) (menu_items body).
Proof.
  unfold ocr_endpoint. pose proof (ocr_select_kept img) as Hkept.
  destruct (ocr_select img) as [best_text best_confidence]. simpl in Hkept.
  destruct (nonempty (strip best_text)) eqn:Hne; simpl; [|done].
  assert (Hstrip : strip best_text ≠ []).
  { intros H. apply nonempty_false in H. congruence. }
  destruct (Hkept Hstrip) as [Hpos Hconfig].
  unfold bind, detect_language, translator_detect, bind, ret.
  destruct (backend_detect best_text (client w)) as [r b] eqn:Hdet.
  pose proof (translate_menu_same_fields target_lang
                (match r with Some lang => lang | None => py "unknown" end)
                (extract_menu_items best_text)
                (World (calls w ++ [Detect best_text]) b)) as Hsame.
  destruct (translate_menu target_lang _ (extract_menu_items best_text) _)
    as [items w2]. simpl in *.
  intros [= <-]. simpl. rewrite Hdet. simpl.
  repeat split; try done.
Qed.

(** ** The calls to the translation client *)

Lemma translate_text_calls (v target_lang : list N) (w : world) :
  target_lang ≠ py "en" →
  calls (translate_text v target_lang w).2 = calls w ++ [Translate v target_lang].
Proof.
  intros Hen. unfold translate_text. rewrite bool_decide_eq_false_2 by done.
  unfold bind, translator_translate, ret.
  by destruct (backend_translate v target_lang (client w)).
Qed.

Lemma translate_key_calls (target_lang : list N) (key : string)
    (item : gmap string (list N)) (w : world) :
  target_lang ≠ py "en" →
  calls (translate_key target_lang key item w).2
  = calls w ++ match item !! key with
               | Some v => [Translate v target_lang]
               | None => []
               end.
Proof.
  intros Hen. unfold translate_key.
  destruct (item !! key) as [v|]; [|by rewrite app_nil_r].
  unfold bind, ret. pose proof (translate_text_calls v target_lang w Hen) as H.
  by destruct (translate_text v target_lang w).
Qed.

Lemma translate_item_calls (target_lang : list N)
    (item : gmap string (list N)) (w : world) :
  target_lang ≠ py "en" →
  calls (translate_item target_lang item w).2 = calls w ++ item_calls target_lang item.
Proof.
  intros Hen. unfold translate_item, bind, item_calls.
  pose proof (translate_key_calls target_lang "name" item w Hen) as Hn.
  pose proof (translate_key_frame target_lang "name" item w) as [Hframe _].
  destruct (translate_key target_lang "name" item w) as [item1 w1]. simpl in *.
  rewrite translate_key_calls by done. rewrite Hn, <- app_assoc.
  by rewrite (Hframe "description").
Qed.

Lemma for_each_calls {A B} (f : A → M B) (trace : A → list call) (l : list A) (w : world) :
  (∀ a w', calls (f a w').2 = calls w' ++ trace a) →
  calls (for_each f l w).2 = calls w ++ concat (List.map trace l).
Proof.
  intros Hf. revert w. induction l as [|a l IH]; intros w; simpl.
  - by rewrite app_nil_r.
  - unfold bind. specialize (Hf a w). destruct (f a w) as [b w1].
    specialize (IH w1). destruct (for_each f l w1) as [bs w2].
    simpl in *. by rewrite IH, Hf, app_assoc.
Qed.

Lemma ocr_endpoint_unfold (img : image) (target_lang : list N) (w : world) :
  ocr_endpoint img target_lang w
  = if negb (nonempty (strip (ocr_select img).1)) then (no_text_detected, w)
    else
      let d := detect_language (ocr_select img).1 w in
      let t := translate_menu target_lang d.1
                 (extract_menu_items (ocr_select img).1) d.2 in
      (Json (OcrResult true d.1 target_lang (ocr_select img).2 (ocr_select img).1
               t.1 (length t.1)), t.2).
Proof.
  unfold ocr_endpoint. destruct (ocr_select img) as [best_text best_confidence].
  simpl. destruct (nonempty (strip best_text)); simpl; [|done].
  unfold bind. destruct (detect_language best_text w) as [d w1]. simpl.
  by destruct (translate_menu target_lang d (extract_menu_items best_text) w1).
Qed.

Lemma detect_language_calls (text : list N) (w : world) :
  calls (detect_language text w).2 = calls w ++ [Detect text].
Proof.
  unfold detect_language, bind, translator_detect, ret.
  by destruct (backend_detect text (client w)).
Qed.

Lemma translate_menu_calls (target_lang detected_lang : list N)
    (items : list (gmap string (list N))) (w : world) :
  calls (translate_menu target_lang detected_lang items w).2
  = calls w ++ (if bool_decide (target_lang ≠ py "en")
                   && bool_decide (detected_lang ≠ target_lang)
                then concat (List.map (item_calls target_lang) items)
                else []).
Proof.
  unfold translate_menu. case_bool_decide as Hen; simpl.
  - destruct (bool_decide (detected_lang ≠ target_lang)); simpl.
    + apply for_each_calls. intros item w'. by apply translate_item_calls.
    + by rewrite app_nil_r.
  - by rewrite app_nil_r.
Qed.

(** X13: the calls of a request to the translation client. An error
    answer makes none. A success answer makes one call of [detect], on the
    kept text, and then, only when the target is not "en" and differs from
    the detected language, one call of [translate] for the name and one for
    the description of every item that has them, in the order of the
    items; nothing else. *)
Theorem endpoint_call_trace (img : image) (target_lang : list N) (w : world) :
  match (ocr_endpoint img target_lang w).1 with
  | Error _ _ => (ocr_endpoint img target_lang w).2 = w
  | Json body =>
      calls (ocr_endpoint img target_lang w).2
      = calls w ++ Detect (raw_text body)
          :: (if bool_decide (target_lang ≠ py "en")
                 && bool_decide (detected_language body ≠ target_lang)
              then concat (List.map (item_calls target_lang)
                             (extract_menu_items (raw_text body)))
              else [])
  end.
Proof.
  rewrite ocr_endpoint_unfold.
  destruct (negb (nonempty (strip (ocr_select img).1))); [done|].
  simpl. rewrite translate_menu_calls, detect_language_calls.
  by rewrite <- app_assoc.
Qed.

Lemma translate_text_result (v target_lang : list N) (w : world) :
  (translate_text v target_lang w).1 = v
  ∨ ∃ b, (backend_translate v target_lang b).1 = Some (translate_text v target_lang w).1.
Proof.
  unfold translate_text. case_bool_decide; [by left|].
  unfold bind, translator_translate, ret.
  destruct (backend_translate v target_lang (client w)) as [[t|] b] eqn:E; simpl.
  - right. exists (client w). by rewrite E.
  - by left.
Qed.

Lemma translate_key_value (target_lang : list N) (key : string)
    (item : gmap string (list N)) (w : world) :
  translated_or_original target_lang key item (translate_key target_lang key item w).1.
Proof.
  intros v Hv. unfold translate_key. rewrite Hv. unfold bind, ret.
  pose proof (translate_text_result v target_lang w) as H.
  destruct (translate_text v target_lang w) as [t w']. simpl in *.
  exists t. by rewrite lookup_insert_eq.
Qed.

Lemma translate_item_values (target_lang : list N)
    (item : gmap string (list N)) (w : world) :
  translated_or_original target_lang "name" item (translate_item target_lang item w).1
  ∧ translated_or_original target_lang "description" item
      (translate_item target_lang item w).1.
Proof.
  unfold translate_item, bind.
  pose proof (translate_key_value target_lang "name" item w) as Hn.
  pose proof (translate_key_frame target_lang "name" item w) as [Hframe _].
  destruct (translate_key target_lang "name" item w) as [item1 w1].
  pose proof (translate_key_value target_lang "description" item1 w1) as Hd.
  pose proof (translate_key_frame target_lang "description" item1 w1) as [Hframe' _].
  destruct (translate_key target_lang "description" item1 w1) as [item2 w2].
  unfold translated_or_original in *. simpl in *. synthesized_keys. split.
  - intros v Hv. rewrite (Hframe' "name_translated") by done. by apply Hn.
  - intros v Hv. apply Hd. by rewrite (Hframe "description").
Qed.

(** X14: when the items are translated, the value stored under
    "name_translated" (and "description_translated") is the name (the
    description) itself or what the client answered for it; when the
    client raises at every call, each translated key holds a copy of the
    original field. *)
Theorem translations_best_effort
    (target_lang detected_lang : list N)
    (items : list (gmap string (list N))) (w : world) :
  target_lang ≠ py "en" → detected_lang ≠ target_lang →
  Forall2 (λ item item', translated_or_original target_lang "name" item item'
                         ∧ translated_or_original target_lang "description" item item')
    items (translate_menu target_lang detected_lang items w).1
  ∧ ((∀ v b, (backend_translate v target_lang b).1 = None) →
     Forall2 (λ item item' : gmap string (list N),
                (∀ v, item !! "name" = Some v → item' !! "name_translated" = Some v)
                ∧ (∀ v, item !! "description" = Some v →
                        item' !! "description_translated" = Some v))
       items (translate_menu target_lang detected_lang items w).1).
Proof.
  intros Hen Hdet.
  assert (Hall : Forall2 (λ item item',
                    translated_or_original target_lang "name" item item'
                    ∧ translated_or_original target_lang "description" item item')
                   items (translate_menu target_lang detected_lang items w).1).
  { unfold translate_menu. rewrite !bool_decide_eq_true_2 by done. simpl.
    apply for_each_Forall2. intros item w'. apply translate_item_values. }
  split; [done|]. intros Hdown.
  eapply Forall2_impl; [exact Hall|]. intros item item' [Hn Hd].
  unfold translated_or_original in *. synthesized_keys. split; intros v Hv.
  - destruct (Hn v Hv) as (t & Ht & [-> |[b Hb]]); [done|]. by rewrite Hdown in Hb.
  - destruct (Hd v Hv) as (t & Ht & [-> |[b Hb]]); [done|]. by rewrite Hdown in Hb.
Qed.

(** ** Lines that are lost *)

Lemma step_name (items : list (gmap string (list N))) (cur : gmap string (list N))
    (line : list N) :
  name_like line → step (items, cur) line = (items, <["name" := line]> cur).
Proof.
  intros [[Hlo Hhi] Hp]. unfold step. rewrite Hp. simpl.
  assert ((length line <? 3)%nat = false) as -> by (apply Nat.ltb_ge; lia).
  assert ((20 <? length line)%nat = false) as -> by (apply Nat.ltb_ge; lia).
  simpl. destruct (truthy cur) eqn:Ht; [done|].
  assert (cur = ∅) as ->.
  { destruct (decide (cur = ∅)) as [|Hne]; [done|].
    apply truthy_true in Hne. congruence. }
  by rewrite insert_empty.
Qed.

Lemma step_description_open (items : list (gmap string (list N)))
    (cur : gmap string (list N)) (line : list N) :
  description_like line → cur ≠ ∅ → step (items, cur) line = (items, cur).
Proof.
  intros [Hlen Hp] Hne. unfold step. rewrite Hp. simpl.
  assert ((length line <? 3)%nat = false) as -> by (apply Nat.ltb_ge; lia).
  assert ((20 <? length line)%nat = true) as -> by (apply Nat.ltb_lt; lia).
  apply truthy_true in Hne. by rewrite Hne.
Qed.

Lemma split_single_line sep (l : list N) : sep ∉ l → split sep l = [l].
Proof.
  induction l as [|c l IH]; intros Hl; simpl; [done|].
  apply not_elem_of_cons in Hl as [Hc Hl]. rewrite IH by done.
  destruct (c =? sep) eqn:E; [|done]. apply N.eqb_eq in E. congruence.
Qed.

Lemma split_first_line sep (l rest : list N) :
  sep ∉ l → split sep (l ++ sep :: rest) = l :: split sep rest.
Proof.
  induction l as [|c l IH]; intros Hl; simpl.
  - by rewrite N.eqb_refl.
  - apply not_elem_of_cons in Hl as [Hc Hl]. rewrite IH by done.
    destruct (c =? sep) eqn:E; [|done]. apply N.eqb_eq in E. congruence.
Qed.

Lemma split_join_lines sep (ls : list (list N)) :
  ls ≠ [] → Forall (λ l, sep ∉ l) ls → split sep (join sep ls) = ls.
Proof.
  induction ls as [|l ls IH]; intros Hne Hall; [done|].
  apply Forall_cons in Hall as [Hl Hls].
  destruct ls as [|l' ls]; simpl.
  - by apply split_single_line.
  - rewrite split_first_line by done. f_equal. by apply IH.
Qed.

Lemma clean_lines_join (ls : list (list N)) :
  ls ≠ [] → Forall (λ l, newline ∉ l) ls →
  clean_lines (join newline ls)
  = List.map strip (List.filter (λ line, nonempty (strip line)) ls).
Proof. intros Hne Hall. unfold clean_lines. by rewrite split_join_lines. Qed.

Lemma nonempty_long (line : list N) : (3 ≤ length line)%nat → nonempty line = true.
Proof. destruct line; simpl; [|done]. intros H. by apply Nat.nle_succ_0 in H. Qed.

Lemma extract_join_app (before after rest rest' : list (list N)) :
  Forall (λ l, newline ∉ l) (before ++ rest ++ after) →
  Forall (λ l, newline ∉ l) (before ++ rest' ++ after) →
  rest ≠ [] → rest' ≠ [] →
  (∀ st, fold_left step
           (List.map strip (List.filter (λ line, nonempty (strip line)) rest)) st
         = fold_left step
             (List.map strip (List.filter (λ line, nonempty (strip line)) rest')) st) →
  extract_menu_items (join newline (before ++ rest ++ after))
  = extract_menu_items (join newline (before ++ rest' ++ after)).
Proof.
  intros Hall Hall' Hne Hne' Hfold. unfold extract_menu_items.
  rewrite !clean_lines_join; try done.
  - rewrite !List.filter_app, !List.map_app, !fold_left_app. by rewrite Hfold.
  - intros H. apply app_eq_nil in H as [_ H]. by apply app_eq_nil in H as [? _].
  - intros H. apply app_eq_nil in H as [_ H]. by apply app_eq_nil in H as [? _].
Qed.

(** X15: a description that follows a name is lost. In a text given line
    by line, a line that reads as a description, coming right after a line
    that reads as a name, has no effect on the items: the text without it
    yields the same. *)
Theorem description_after_name_is_lost
    (before after : list (list N)) (name description : list N) :
  Forall (λ l, newline ∉ l) (before ++ [name; description] ++ after) →
  name_like (strip name) → description_like (strip description) →
  extract_menu_items (join newline (before ++ [name; description] ++ after))
  = extract_menu_items (join newline (before ++ [name] ++ after)).
Proof.
  intros Hall Hname Hdesc. apply extract_join_app; try done.
  - apply Forall_app in Hall as [Hb Hrest]. apply Forall_app. split; [done|].
    inversion Hrest as [|? ? Hn Hrest']; subst.
    inversion Hrest' as [|? ? _ Ha]; subst. by constructor.
  - intros [items cur]. cbn [List.filter].
    rewrite (nonempty_long (strip name)) by (destruct Hname as [[? _] _]; done).
    rewrite (nonempty_long (strip description)) by (destruct Hdesc as [? _]; lia).
    cbn [List.map fold_left]. rewrite step_name by done.
    rewrite step_description_open; [done..|apply insert_non_empty].
Qed.

(** X16: of two names in a row only the second is kept. In a text given
    line by line, a line that reads as a name, coming right before another
    such line, has no effect on the items. *)
Theorem earlier_name_is_overwritten
    (before after : list (list N)) (name1 name2 : list N) :
  Forall (λ l, newline ∉ l) (before ++ [name1; name2] ++ after) →
  name_like (strip name1) → name_like (strip name2) →
  extract_menu_items (join newline (before ++ [name1; name2] ++ after))
  = extract_menu_items (join newline (before ++ [name2] ++ after)).
Proof.
  intros Hall Hn1 Hn2. apply extract_join_app; try done.
  - apply Forall_app in Hall as [Hb Hrest]. apply Forall_app. split; [done|].
    by inversion Hrest.
  - intros [items cur]. cbn [List.filter].
    rewrite (nonempty_long (strip name1)) by (destruct Hn1 as [[? _] _]; done).
    rewrite (nonempty_long (strip name2)) by (destruct Hn2 as [[? _] _]; done).
    cbn [List.map fold_left]. rewrite !step_name by done. by rewrite insert_insert_eq.
Qed.

(** ** Profiles that cannot win *)

Lemma keep_best_nonneg (best : list N * Q) (cand : option (list N * Q)) :
  (0 <= best.2)%Q → (0 <= (keep_best best cand).2)%Q.
Proof.
  intros Hb. destruct cand as [[t q]|]; simpl; [|done].
  destruct (Qgt_bool q best.2) eqn:Hgt; [|done].
  apply Qgt_bool_true in Hgt. simpl. apply Qlt_le_weak. by eapply Qle_lt_trans.
Qed.

Lemma fold_keep_best_counts (cands : list (option (list N * Q))) (best : list N * Q) :
  (0 <= best.2)%Q →
  fold_left keep_best cands best = fold_left keep_best (List.filter counts cands) best.
Proof.
  revert best. induction cands as [|cand cands IH]; intros best Hb; [done|].
  simpl. destruct (counts cand) eqn:Hc; simpl.
  - apply IH. by apply keep_best_nonneg.
  - rewrite <- IH by done. f_equal.
    destruct cand as [[t q]|]; simpl in *; [|done].
    apply Qgt_bool_false in Hc.
    assert (Qgt_bool q best.2 = false) as ->; [|done].
    apply Qgt_bool_false. by eapply Qle_trans.
Qed.

(** X17: the profiles that raise, and those that succeed with an average
    confidence of 0, are without effect: the selection is what it would be
    had only the other profiles been run, in the same order. *)
Theorem selection_skips_failed_and_zero (cands : list (option (list N * Q))) :
  select_loop cands = select_loop (List.filter counts cands).
Proof. unfold select_loop. apply fold_keep_best_counts. apply Qle_refl. Qed.

(** X18: when the target is "en", or is the language that was detected,
    the items of a success answer are the items of the segmenter for the
    text of the answer, unchanged, and their number is the count. *)
Theorem untranslated_response_items
    (img : image) (target_lang : list N) (w : world) (body : ocr_result) :
  (ocr_endpoint img target_lang w).1 = Json body →
  target_lang = py "en" ∨ detected_language body = target_lang →
  menu_items body = extract_menu_items (raw_text body)
  ∧ total_items body = length (extract_menu_items (raw_text body)).
Proof.
  rewrite ocr_endpoint_unfold.
  destruct (negb (nonempty (strip (ocr_select img).1))); [done|].
  simpl. intros [= <-]. simpl. intros Hoff.
  assert (Hsame : translate_menu target_lang (detect_language (ocr_select img).1 w).1
                    (extract_menu_items (ocr_select img).1)
                    (detect_language (ocr_select img).1 w).2
                  = (extract_menu_items (ocr_select img).1,
                     (detect_language (ocr_select img).1 w).2)).
  { unfold translate_menu. destruct Hoff as [Hen|Hdet].
    - by rewrite (bool_decide_eq_false_2 (target_lang ≠ py "en")) by (by intros H).
    - rewrite (bool_decide_eq_false_2 (_ ≠ target_lang)) by (by intros H).
      by rewrite andb_false_r. }
  by rewrite Hsame.
Qed.

(** ** When the handler finds no text *)

Lemma lstrip_nil_blank (s : list N) : lstrip s = [] ↔ blank s.
Proof.
  unfold blank. induction s as [|c s IH]; simpl; [by split; [constructor|]|].
  destruct (isspace c) eqn:Hc.
  - rewrite IH, Forall_cons. split; [by split|by intros [_ ?]].
  - split; [done|]. intros [Hc' _]%Forall_cons. congruence.
Qed.

Lemma blank_lstrip (s : list N) : blank (lstrip s) ↔ blank s.
Proof.
  unfold blank. induction s as [|c s IH]; simpl; [done|].
  destruct (isspace c) eqn:Hc; [|done].
  rewrite IH, Forall_cons. split; [by split|by intros [_ ?]].
Qed.

Lemma blank_rev (s : list N) : blank (rev s) ↔ blank s.
Proof.
  unfold blank. rewrite !Forall_forall. split; intros H c Hc; apply H;
    apply list_elem_of_In; apply list_elem_of_In in Hc;
    first [by apply in_rev|by apply in_rev in Hc].
Qed.

(** [s.strip()] is empty exactly when [s] is empty or white space only. *)
Lemma strip_nil_blank (s : list N) : strip s = [] ↔ blank s.
Proof.
  unfold strip, rstrip. rewrite <- blank_lstrip, <- blank_rev, <- lstrip_nil_blank.
  split; [|by intros ->].
  intros H. apply (f_equal (@rev N)) in H. by rewrite rev_involutive in H.
Qed.

(** At most one candidate is the first of highest confidence. *)
Lemma first_highest_unique (cands : list (option (list N * Q))) (i j : nat)
    (best best' : list N * Q) :
  first_highest cands i best → first_highest cands j best' → best = best'.
Proof.
  destruct best as [t q], best' as [t' q'].
  intros (Hi & Hmax & Hfirst) (Hj & Hmax' & Hfirst'). simpl in *.
  destruct (Nat.lt_trichotomy i j) as [Hlt|[-> |Hgt]].
  - exfalso. pose proof (Hfirst' i t q Hlt Hi) as H1.
    pose proof (Hmax j t' q' Hj) as H2. by apply Qlt_not_le in H1.
  - congruence.
  - exfalso. pose proof (Hfirst j t' q' Hgt Hj) as H1.
    pose proof (Hmax' i t q Hi) as H2. by apply Qlt_not_le in H1.
Qed.

Lemma ocr_endpoint_no_text (img : image) (target_lang : list N) (w : world) :
  (ocr_endpoint img target_lang w).1 = no_text_detected ↔ blank (ocr_select img).1.
Proof.
  rewrite ocr_endpoint_unfold, <- strip_nil_blank, <- nonempty_false.
  by destruct (nonempty (strip (ocr_select img).1)).
Qed.

(** C1, as the code has it: the handler answers "No text detected in image"
    exactly when no profile succeeds with an average confidence above 0
    (so when every profile fails) or when the candidate that is kept, the
    first of highest confidence among the profiles that succeed with a
    confidence above 0, has a text that is empty or white space only; in
    every other case it answers with a success record that carries the
    text and the confidence of that candidate. *)
Theorem no_text_detected_iff_nothing_kept_or_blank
    (img : image) (target_lang : list N) (w : world) :
  ((ocr_endpoint img target_lang w).1 = no_text_detected
   ↔ (∀ i t q, List.map (candidate img) ocr_configs !! i = Some (Some (t, q)) →
               (q <= 0)%Q)
     ∨ ∃ i best, first_highest (List.map (candidate img) ocr_configs) i best
                 ∧ (0 < best.2)%Q ∧ blank best.1)
  ∧ (Forall (λ config, candidate img config = None) ocr_configs →
     (ocr_endpoint img target_lang w).1 = no_text_detected)
  ∧ ((ocr_endpoint img target_lang w).1 ≠ no_text_detected →
     ∃ i best body,
       first_highest (List.map (candidate img) ocr_configs) i best
       ∧ (0 < best.2)%Q ∧ ¬ blank best.1
       ∧ (ocr_endpoint img target_lang w).1 = Json body
       ∧ success body = true
       ∧ raw_text body = best.1
       ∧ confidence body = best.2).
Proof.
  rewrite ocr_endpoint_no_text.
  pose proof (ocr_endpoint_unfold img target_lang w) as Hresp.
  rewrite <- (negb_involutive (nonempty _)) in Hresp.
  unfold ocr_select in *.
  destruct (select_loop_spec (List.map (candidate img) ocr_configs))
    as [[Hinit Hall]|[Hpos [i Hi]]].
  - rewrite Hinit. split; [|split].
    + split; [by left|]. intros _. constructor.
    + intros _. constructor.
    + intros Hne. exfalso. apply Hne. constructor.
  - split; [|split].
    + split.
      * intros Hblank. right. by exists i, (select_loop (List.map (candidate img) ocr_configs)).
      * intros [Hnone|(j & best & Hj & _ & Hblank)].
        -- exfalso. destruct Hi as (Hi & _).
           destruct (select_loop (List.map (candidate img) ocr_configs)) as [t q].
           specialize (Hnone i t q Hi). simpl in Hpos. by apply Qlt_not_le in Hpos.
        -- by rewrite (first_highest_unique _ _ _ _ _ Hi Hj).
    + intros Hfail. exfalso.
      rewrite select_loop_all_fail in Hpos; [done|].
      apply Forall_forall. intros cand Hin.
      apply list_elem_of_In, in_map_iff in Hin as (config & <- & Hin).
      rewrite Forall_forall in Hfail. apply Hfail. by apply list_elem_of_In.
    + intros Hne.
      exists i, (select_loop (List.map (candidate img) ocr_configs)).
      assert (Hstrip : nonempty (strip (select_loop (List.map (candidate img) ocr_configs)).1)
                       = true).
      { apply not_false_iff_true. by rewrite nonempty_false, strip_nil_blank. }
      rewrite Hstrip in Hresp. cbn [negb] in Hresp. rewrite Hresp.
      eexists. split; [exact Hi|]. split; [exact Hpos|]. split; [exact Hne|].
      cbn [fst]. split; [reflexivity|]. by repeat split.
Qed.

End OCR.

(** ** The model at work in the sample world *)

(** [re.search] returns the leftmost match, and the first alternative that
    matches there. *)
Example search_leftmost :
  Re.search (price_pattern Sample.decimal_db) (py "abc 12.5 $ 3.456 EUR") = Some (py "5 $").
Proof. vm_compute; reflexivity. Qed.

Example search_fraction :
  Re.search (price_pattern Sample.decimal_db) (py "Pizza 9.99 EUR") = Some (py "9.99 EUR").
Proof. vm_compute; reflexivity. Qed.

(** [\d] is not limited to ASCII: "$" followed by U+0661 U+0662. *)
Example search_arabic_indic :
  has_price Sample.decimal_db (py "$" ++ [0x661; 0x662]) = true.
Proof. vm_compute; reflexivity. Qed.

Example split_trailing_newline :
  split newline Sample.pasta_page = [py "Pasta"; py "$12.50"; []].
Proof. reflexivity. Qed.

Example strip_both_sides : strip (py "  12 USD " ++ [13]) = py "12 USD".
Proof. reflexivity. Qed.

(** A name, a price, then a name left open at the end of the text. *)
Example two_items :
  extract_menu_items Sample.decimal_db
    (py "Pasta" ++ newline :: py "$12.50" ++ newline :: py "Soup")
  = [pasta_item; {["name" := py "Soup"]}].
Proof. vm_compute; reflexivity. Qed.

(** ** The properties at work in the sample world *)

Lemma price_line_without_item_dropped_witness :
  has_price Sample.decimal_db (py "$12.50") = true
  ∧ step Sample.decimal_db ([], ∅) (py "$12.50") = ([], ∅).
Proof.
  split; [vm_compute; reflexivity|].
  apply (price_line_without_item_dropped Sample.decimal_db [] (py "$12.50")).
  vm_compute; reflexivity.
Defined.

Lemma avg_confidence_rounded_mean_witness :
  int_scores [Int (-1); Int 80; Int 0; Int 90] = Some [-1; 80; 0; 90]%Z
  ∧ ∃ v, avg_confidence [Int (-1); Int 80; Int 0; Int 90] = Some v
         ∧ (v == inject_Z 85)%Q.
Proof.
  split; [reflexivity|].
  destruct (avg_confidence_rounded_mean [Int (-1); Int 80; Int 0; Int 90])
    as [_ Hread].
  destruct (Hread [-1; 80; 0; 90]%Z) as [_ Hpos]; [reflexivity|].
  destruct Hpos as (_ & _ & Hexact); [simpl; lia|].
  apply Hexact; [reflexivity|reflexivity].
Defined.

(** The scores 1, 1 and 2 have the mean 4/3, which is no double: the
    average confidence is the double next to it. The score 95.7 is read
    as 95, and the scores 0.5 and 90 as 0 and 90. *)
Lemma avg_confidence_is_not_the_exact_mean :
  avg_confidence [Int 1; Int 1; Int 2]
  = Some (6004799503160661 # 4503599627370496)
  ∧ (exact_mean (positive_values [Int 1; Int 1; Int 2]) == 4 # 3)%Q
  ∧ ¬ equals_mean_of_positive_scores [Int 1; Int 1; Int 2]
  ∧ ¬ equals_mean_of_positive_scores [Float (957 # 10)]
  ∧ ¬ equals_mean_of_positive_scores [Float (1 # 2); Int 90].
Proof.
  split; [vm_compute; reflexivity|]. split; [vm_compute; reflexivity|].
  repeat split; intros (v & Hv & Heq); vm_compute in Hv; injection Hv as <-;
    vm_compute in Heq; discriminate Heq.
Defined.

Lemma selector_keeps_first_highest_positive_witness :
  ∃ a2, avg_confidence [Int (-1); Int 80; Int 0; Int 90] = Some a2
    ∧ ocr_select Sample.photo Sample.image_to_data Sample.image_to_string Sample.menu
      = (Sample.pasta_page, a2)
    ∧ ((ocr_select Sample.photo Sample.image_to_data Sample.image_to_string
          Sample.menu).2 == 85)%Q.
Proof.
  eexists. split; [vm_compute; reflexivity|].
  apply (proj2 (selector_keeps_first_highest_positive
                  Sample.photo Sample.image_to_data Sample.image_to_string)
           Sample.menu [Int (-1); Int 40] [Int (-1); Int 80; Int 0; Int 90]
           [Float (607 # 10); Int (-1)]
           (5629499534213120 # 140737488355328)
           (5981343255101440 # 70368744177664)
           (8444249301319680 # 140737488355328)
           (py "Pasta 12") Sample.pasta_page (py "Pas ta"));
    vm_compute; reflexivity.
Defined.

(** Three profiles read "Soup" off the faint photograph, each with no score
    above 0; one profile reads "Soup" off the smudged one, with no score
    above 0, and the two others raise. In both cases the first profile has
    the highest confidence of those that succeeded, and the selector keeps
    the empty text it started from. *)
Lemma selector_ignores_zero_confidence_success :
  List.map (candidate Sample.photo Sample.image_to_data Sample.image_to_string Sample.faint)
    ocr_configs
  = [Some (py "Soup", 0%Q); Some (py "Soup", 0%Q); Some (py "Soup", 0%Q)]
  ∧ List.map
      (candidate Sample.photo Sample.image_to_data Sample.image_to_string Sample.smudged)
      ocr_configs
    = [Some (py "Soup", 0%Q); None; None]
  ∧ ocr_select Sample.photo Sample.image_to_data Sample.image_to_string Sample.faint
    = ([], 0%Q)
  ∧ ocr_select Sample.photo Sample.image_to_data Sample.image_to_string Sample.smudged
    = ([], 0%Q)
  ∧ ¬ keeps_highest_success
        (List.map
           (candidate Sample.photo Sample.image_to_data Sample.image_to_string Sample.faint)
           ocr_configs)
  ∧ ¬ keeps_highest_success
        (List.map
           (candidate Sample.photo Sample.image_to_data Sample.image_to_string Sample.smudged)
           ocr_configs).
Proof.
  assert (Hfaint :
    List.map (candidate Sample.photo Sample.image_to_data Sample.image_to_string Sample.faint)
      ocr_configs
    = [Some (py "Soup", 0%Q); Some (py "Soup", 0%Q); Some (py "Soup", 0%Q)])
    by reflexivity.
  assert (Hsmudged :
    List.map (candidate Sample.photo Sample.image_to_data Sample.image_to_string Sample.smudged)
      ocr_configs
    = [Some (py "Soup", 0%Q); None; None])
    by reflexivity.
  split; [exact Hfaint|]. split; [exact Hsmudged|].
  split; [reflexivity|]. split; [reflexivity|].
  rewrite Hfaint, Hsmudged.
  split; intros Hkeep; specialize (Hkeep 0%nat (py "Soup", 0%Q)).
  - assert (Hsel : select_loop
                     [Some (py "Soup", 0%Q); Some (py "Soup", 0%Q); Some (py "Soup", 0%Q)]
                   = (py "Soup", 0%Q)); [|discriminate Hsel].
    apply Hkeep. split; [reflexivity|]. split.
    + intros j t q Hj. destruct j as [|[|[|j]]]; simpl in Hj; try discriminate;
        injection Hj as <- <-; apply Qle_refl.
    + intros j t q Hlt. lia.
  - assert (Hsel : select_loop [Some (py "Soup", 0%Q); None; None] = (py "Soup", 0%Q));
      [|discriminate Hsel].
    apply Hkeep. split; [reflexivity|]. split.
    + intros j t q Hj. destruct j as [|[|[|j]]]; simpl in Hj; try discriminate.
      injection Hj as <- <-. apply Qle_refl.
    + intros j t q Hlt. lia.
Defined.

Lemma no_text_detected_iff_nothing_kept_or_blank_witness :
  ((ocr_endpoint Sample.decimal_db Sample.photo Sample.image_to_data Sample.image_to_string
      nat Sample.backend_detect Sample.backend_translate
      Sample.blank (py "fr") (World nat [] 0%nat)).1
   = no_text_detected)
  ∧ ∃ body,
      (ocr_endpoint Sample.decimal_db Sample.photo Sample.image_to_data
         Sample.image_to_string nat Sample.backend_detect Sample.backend_translate
         Sample.menu (py "fr") (World nat [] 0%nat)).1 = Json body
      ∧ raw_text body = Sample.pasta_page.
Proof.
  split.
  - apply (no_text_detected_iff_nothing_kept_or_blank Sample.decimal_db Sample.photo
             Sample.image_to_data Sample.image_to_string nat Sample.backend_detect
             Sample.backend_translate Sample.blank (py "fr") (World nat [] 0%nat)).
    repeat constructor.
  - destruct (no_text_detected_iff_nothing_kept_or_blank Sample.decimal_db Sample.photo
                Sample.image_to_data Sample.image_to_string nat Sample.backend_detect
                Sample.backend_translate Sample.menu (py "fr") (World nat [] 0%nat))
      as (_ & _ & Hgo).
    destruct Hgo as (i & best & body & Hbest & _ & _ & Hbody & _ & Hraw & _).
    + vm_compute. discriminate.
    + exists body. split; [exact Hbody|]. rewrite Hraw.
      assert (Hkept : first_highest
                (List.map (candidate Sample.photo Sample.image_to_data
                             Sample.image_to_string Sample.menu) ocr_configs)
                1 (Sample.pasta_page, 5981343255101440 # 70368744177664)).
      { split; [vm_compute; reflexivity|]. split.
        - intros j t q Hj. destruct j as [|[|[|j]]]; vm_compute in Hj; try discriminate;
            injection Hj as <- <-; vm_compute; discriminate.
        - intros j t q Hlt Hj. destruct j as [|j]; [|lia]. vm_compute in Hj.
          injection Hj as <- <-. vm_compute. reflexivity. }
      by rewrite (first_highest_unique _ _ _ _ _ Hbest Hkept).
Defined.

(** One profile reads "Soup" off the smudged photograph, with no score
    above 0, and the two others raise: not every profile fails, the best
    candidate of those that succeed has a text that is not blank, and the
    answer is "No text detected" all the same. *)
Lemma no_text_detected_despite_readable_profile :
  (ocr_endpoint Sample.decimal_db Sample.photo Sample.image_to_data Sample.image_to_string
     nat Sample.backend_detect Sample.backend_translate
     Sample.smudged (py "en") (World nat [] 0%nat)).1 = no_text_detected
  ∧ List.map (candidate Sample.photo Sample.image_to_data Sample.image_to_string
                Sample.smudged) ocr_configs
    = [Some (py "Soup", 0%Q); None; None]
  ∧ first_highest [Some (py "Soup", 0%Q); None; None] 0 (py "Soup", 0%Q)
  ∧ ¬ blank (py "Soup")
  ∧ ¬ no_text_iff_all_fail_or_best_blank
        (ocr_endpoint Sample.decimal_db Sample.photo Sample.image_to_data
           Sample.image_to_string nat Sample.backend_detect Sample.backend_translate
           Sample.smudged (py "en") (World nat [] 0%nat)).1
        (List.map (candidate Sample.photo Sample.image_to_data Sample.image_to_string
                     Sample.smudged) ocr_configs).
Proof.
  assert (Hresp :
    (ocr_endpoint Sample.decimal_db Sample.photo Sample.image_to_data
       Sample.image_to_string nat Sample.backend_detect Sample.backend_translate
       Sample.smudged (py "en") (World nat [] 0%nat)).1 = no_text_detected)
    by reflexivity.
  assert (Hcands :
    List.map (candidate Sample.photo Sample.image_to_data Sample.image_to_string
                Sample.smudged) ocr_configs
    = [Some (py "Soup", 0%Q); None; None]) by reflexivity.
  assert (Hsoup : ¬ blank (py "Soup")).
  { intros H. apply Forall_cons in H as [H _]. vm_compute in H. discriminate H. }
  split; [exact Hresp|]. split; [exact Hcands|]. split; [|split; [exact Hsoup|]].
  - split; [reflexivity|]. split.
    + intros j t q Hj. destruct j as [|[|[|j]]]; simpl in Hj; try discriminate.
      injection Hj as <- <-. apply Qle_refl.
    + intros j t q Hlt. lia.
  - rewrite Hcands. intros [Hthen _].
    destruct (Hthen Hresp) as [Hall|(i & best & (Hi & _) & Hblank)].
    + apply Forall_cons in Hall as [Hfirst _]. discriminate Hfirst.
    + destruct i as [|[|[|i]]]; simpl in Hi; try discriminate.
      injection Hi as <-. by apply Hsoup.
Defined.

Lemma translate_text_best_effort_witness :
  (Sample.backend_translate (py "Pasta") (py "de") 0%nat).1 = None
  ∧ (translate_text nat Sample.backend_translate (py "Pasta") (py "de")
       (World nat [] 0%nat)).1 = py "Pasta".
Proof.
  split; [reflexivity|].
  apply (proj2 (translate_text_best_effort nat Sample.backend_translate)
           (py "Pasta") (py "de") (World nat [] 0%nat)).
  reflexivity.
Defined.

Lemma translation_only_adds_keys_witness :
  Forall2 (λ item item', translation_added "name" item item'
                         ∧ translation_added "description" item item')
    [pasta_item]
    (translate_menu nat Sample.backend_translate (py "fr") (py "it") [pasta_item]
       (World nat [] 0%nat)).1
  ∧ translate_menu nat Sample.backend_translate (py "en") (py "it") [pasta_item]
      (World nat [] 0%nat) = ([pasta_item], World nat [] 0%nat).
Proof.
  split.
  - apply (translation_only_adds_keys Sample.decimal_db nat Sample.backend_translate
             (py "fr") (py "it") [pasta_item] (World nat [] 0%nat));
      vm_compute; discriminate.
  - apply (translation_only_adds_keys Sample.decimal_db nat Sample.backend_translate
             (py "en") (py "it") [pasta_item] (World nat [] 0%nat)).
    left. reflexivity.
Defined.

(** ** Further properties at work in the sample world *)

Lemma price_group_leftmost_match_witness :
  has_price Sample.decimal_db (py "Pizza 9.99 EUR") = true
  ∧ ∃ pre post,
      py "Pizza 9.99 EUR"
      = pre ++ price_group Sample.decimal_db (py "Pizza 9.99 EUR") ++ post
      ∧ (2 ≤ length (price_group Sample.decimal_db (py "Pizza 9.99 EUR")))%nat.
Proof.
  split; [vm_compute; reflexivity|].
  destruct (price_group_leftmost_match Sample.decimal_db (py "Pizza 9.99 EUR"))
    as (pre & post & Hline & _ & Hlen & _); [vm_compute; reflexivity|].
  exists pre, post. split; [exact Hline|exact Hlen].
Defined.

Lemma items_price_from_line_witness :
  pasta_item !! "price" = Some (py "$12.50")
  ∧ ∃ line pre post,
      line ∈ clean_lines pasta_text
      ∧ line = pre ++ py "$12.50" ++ post
      ∧ pasta_item !! "full_text"
        = Some (default [] (pasta_item !! "name") ++ py " " ++ line).
Proof.
  split; [reflexivity|].
  pose proof (items_price_from_line Sample.decimal_db pasta_text) as H.
  assert (Hrun : extract_menu_items Sample.decimal_db pasta_text = [pasta_item])
    by (vm_compute; reflexivity).
  rewrite Hrun in H. apply Forall_cons in H as [H _].
  destruct (H (py "$12.50")) as (line & pre & post & Hin & Hline & _ & Hfull);
    [reflexivity|].
  exists line, pre, post. split; [exact Hin|]. split; [exact Hline|exact Hfull].
Defined.

Lemma items_depend_on_long_stripped_lines_witness :
  long_stripped_lines Sample.pasta_page_crlf = long_stripped_lines Sample.pasta_page
  ∧ extract_menu_items Sample.decimal_db Sample.pasta_page_crlf
    = extract_menu_items Sample.decimal_db Sample.pasta_page.
Proof.
  split; [reflexivity|].
  apply (items_depend_on_long_stripped_lines Sample.decimal_db
           Sample.pasta_page_crlf Sample.pasta_page).
  reflexivity.
Defined.

Lemma allowed_file_total_witness :
  (dot ∉ py "README") ∧ allowed_file Sample.unicode_lower (py "README") = Some false.
Proof.
  assert (Hno : dot ∉ py "README")
    by (apply (bool_decide_unpack _); vm_compute; reflexivity).
  split; [exact Hno|].
  destruct (allowed_file_total Sample.unicode_lower (py "README")) as (b & Hb & Hfalse).
  rewrite Hb. f_equal. apply Hfalse. exact Hno.
Defined.

Lemma allowed_file_ignores_stem_and_case_witness :
  allowed_file Sample.unicode_lower (py "menu" ++ dot :: py "PNG")
  = allowed_file Sample.unicode_lower (py "a.b" ++ dot :: py "png").
Proof.
  apply (allowed_file_ignores_stem_and_case Sample.unicode_lower
           (py "menu") (py "a.b") (py "PNG") (py "png"));
    try reflexivity; apply (bool_decide_unpack _); vm_compute; reflexivity.
Defined.

Lemma avg_confidence_bounds_witness :
  ∃ v, avg_confidence [Int (-1); Int 80; Int 0; Int 90] = Some v
    ∧ (0 <= v)%Q ∧ (v <= inject_Z 100)%Q.
Proof.
  assert (H : ∃ v, avg_confidence [Int (-1); Int 80; Int 0; Int 90] = Some v)
    by (eexists; vm_compute; reflexivity).
  destruct H as [v Hv]. exists v. split; [exact Hv|].
  destruct (avg_confidence_bounds _ v Hv) as (Hzero & _ & Hmax).
  split; [exact Hzero|].
  apply (Hmax [-1; 80; 0; 90]%Z 100%Z); [reflexivity| |].
  - split; [lia|]. vm_compute. reflexivity.
  - intros c Hc. apply list_elem_of_In in Hc. simpl in Hc.
    destruct Hc as [<-|[<-|[<-|[<-|[]]]]]; lia.
Defined.

Lemma success_response_coherent_witness :
  ∃ body,
    (ocr_endpoint Sample.decimal_db Sample.photo Sample.image_to_data
       Sample.image_to_string nat Sample.backend_detect Sample.backend_translate
       Sample.menu (py "fr") (World nat [] 0%nat)).1 = Json body
    ∧ (0 < confidence body)%Q
    ∧ total_items body = length (menu_items body)
    ∧ detected_language body = py "it".
Proof.
  assert (H : ∃ body,
    (ocr_endpoint Sample.decimal_db Sample.photo Sample.image_to_data
       Sample.image_to_string nat Sample.backend_detect Sample.backend_translate
       Sample.menu (py "fr") (World nat [] 0%nat)).1 = Json body)
    by (eexists; vm_compute; reflexivity).
  destruct H as [body Hbody]. exists body. split; [exact Hbody|].
  destruct (success_response_coherent Sample.decimal_db Sample.photo
              Sample.image_to_data Sample.image_to_string nat Sample.backend_detect
              Sample.backend_translate Sample.menu (py "fr") (World nat [] 0%nat)
              body Hbody)
    as (_ & _ & _ & Hpos & _ & Hdet & Htotal & _).
  split; [exact Hpos|]. split; [exact Htotal|]. rewrite Hdet.
  assert (Hraw : raw_text body = Sample.pasta_page).
  { vm_compute in Hbody. injection Hbody as <-. reflexivity. }
  rewrite Hraw. reflexivity.
Defined.

Lemma translations_best_effort_witness :
  Forall2 (λ item item' : gmap string (list N),
             (∀ v, item !! "name" = Some v → item' !! "name_translated" = Some v)
             ∧ (∀ v, item !! "description" = Some v →
                     item' !! "description_translated" = Some v))
    [pasta_item]
    (translate_menu nat Sample.backend_translate (py "de") (py "it") [pasta_item]
       (World nat [] 0%nat)).1.
Proof.
  apply (translations_best_effort nat Sample.backend_translate (py "de") (py "it")
           [pasta_item] (World nat [] 0%nat)).
  - vm_compute. discriminate.
  - vm_compute. discriminate.
  - intros v b. reflexivity.
Defined.

Lemma description_after_name_is_lost_witness :
  extract_menu_items Sample.decimal_db
    (join newline
       ([] ++ [py "Pasta"; py "Delicious handmade pasta with truffle sauce"]
           ++ [py "$12.50"]))
  = extract_menu_items Sample.decimal_db
      (join newline ([] ++ [py "Pasta"] ++ [py "$12.50"])).
Proof.
  apply (description_after_name_is_lost Sample.decimal_db [] [py "$12.50"]
           (py "Pasta") (py "Delicious handmade pasta with truffle sauce")).
  - repeat constructor; apply (bool_decide_unpack _); vm_compute; reflexivity.
  - split; [split; vm_compute; lia|vm_compute; reflexivity].
  - split; [vm_compute; lia|vm_compute; reflexivity].
Defined.

Lemma earlier_name_is_overwritten_witness :
  extract_menu_items Sample.decimal_db
    (join newline ([] ++ [py "House special"; py "Pasta"] ++ [py "$12.50"]))
  = extract_menu_items Sample.decimal_db
      (join newline ([] ++ [py "Pasta"] ++ [py "$12.50"])).
Proof.
  apply (earlier_name_is_overwritten Sample.decimal_db [] [py "$12.50"]
           (py "House special") (py "Pasta")).
  - repeat constructor; apply (bool_decide_unpack _); vm_compute; reflexivity.
  - split; [split; vm_compute; lia|vm_compute; reflexivity].
  - split; [split; vm_compute; lia|vm_compute; reflexivity].
Defined.

Lemma untranslated_response_items_witness :
  ∃ body,
    (ocr_endpoint Sample.decimal_db Sample.photo Sample.image_to_data
       Sample.image_to_string nat Sample.backend_detect Sample.backend_translate
       Sample.menu (py "en") (World nat [] 0%nat)).1 = Json body
    ∧ menu_items body = extract_menu_items Sample.decimal_db (raw_text body)
    ∧ total_items body = 1%nat.
Proof.
  assert (H : ∃ body,
    (ocr_endpoint Sample.decimal_db Sample.photo Sample.image_to_data
       Sample.image_to_string nat Sample.backend_detect Sample.backend_translate
       Sample.menu (py "en") (World nat [] 0%nat)).1 = Json body)
    by (eexists; vm_compute; reflexivity).
  destruct H as [body Hbody]. exists body. split; [exact Hbody|].
  destruct (untranslated_response_items Sample.decimal_db Sample.photo
              Sample.image_to_data Sample.image_to_string nat Sample.backend_detect
              Sample.backend_translate Sample.menu (py "en") (World nat [] 0%nat)
              body Hbody) as [Hitems Htotal]; [left; reflexivity|].
  split; [exact Hitems|]. rewrite Htotal.
  assert (Hraw : raw_text body = Sample.pasta_page).
  { vm_compute in Hbody. injection Hbody as <-. reflexivity. }
  rewrite Hraw. vm_compute. reflexivity.
Defined.

(** ** [allowed_file] and [rsplit] at work *)

Example rsplit1_examples :
  rsplit1 dot (py "a.b.c") = [py "a.b"; py "c"]
  ∧ rsplit1 dot (py "abc") = [py "abc"]
  ∧ rsplit1 dot (py ".png") = [[]; py "png"]
  ∧ rsplit1 dot (py "a.") = [py "a"; []]
  ∧ rsplit1 dot [] = [[]].
Proof. repeat split. Qed.

(** Only what follows the last dot counts, in any case of letters. *)
Example allowed_file_examples :
  allowed_file Sample.unicode_lower (py "menu.png") = Some true
  ∧ allowed_file Sample.unicode_lower (py "MENU.JPeG") = Some true
  ∧ allowed_file Sample.unicode_lower (py "menu.png.exe") = Some false
  ∧ allowed_file Sample.unicode_lower (py "menu.exe.png") = Some true
  ∧ allowed_file Sample.unicode_lower (py ".tiff") = Some true
  ∧ allowed_file Sample.unicode_lower (py "menu.") = Some false
  ∧ allowed_file Sample.unicode_lower (py "png") = Some false
  ∧ allowed_file Sample.unicode_lower [] = Some false.
Proof. repeat split; vm_compute; reflexivity. Qed.

(** ** The division of [int]s and [int] at work *)

(** 4/3 and 1/10 are no doubles; 170/2 is; a quotient beyond the doubles
    raises, and so does a division by 0. *)
Example true_div_examples :
  true_div 4 3 = Some (6004799503160661 # 4503599627370496)
  ∧ true_div 1 10 = Some (7205759403792794 # 72057594037927936)
  ∧ (default 0 (true_div 170 2) == 85)%Q
  ∧ true_div (2 ^ 53 + 3) 1 = Some (9007199254740996 # 1)
  ∧ true_div (10 ^ 309) 1 = None
  ∧ true_div 1 0 = None.
Proof. repeat split; vm_compute; reflexivity. Qed.

Example py_int_examples :
  py_int (Float (957 # 10)) = Some 95%Z
  ∧ py_int (Float (-(5 # 2))) = Some (-2)%Z
  ∧ py_int (Float (1 # 2)) = Some 0%Z
  ∧ py_int (Int (-1)) = Some (-1)%Z
  ∧ py_int Unreadable = None.
Proof. repeat split. Qed.
